(** * The HTTP socket-filter tracer ([pkg/ebpf/httpfltr/httpfltr.go])

    A shallow embedding of the Go package [httpfltr]: the decoder of the
    records the kernel-side program writes into the ring buffer
    ([toRequestTrace], [url], [method], [hostInfo]), the resolver of process
    names ([cstr], [commNameOfDeadPid], [commName], [serviceName]) with its
    LRU cache [activePids], and the declarations handed to the attacher
    ([Constants], [KProbes]).

    A Go [string], a byte slice and a byte array are sequences of 8-bit
    bytes, all [list ascii] here.  Go's [int] is [Z], [uint32] is [N].  A
    run-time panic (a slice expression out of range) is the [None] of an
    [option]; an [error] result is an [option error], [None] for [nil]. *)

From Stdlib Require Import ZArith Ascii String List.
From stdpp Require Import base tactics option list gmap strings pretty.

Local Open Scope Z_scope.

(** ** Bytes and Go strings *)

Abbreviation bytes := (list ascii).

(** A literal of the source, as its bytes. *)
Definition lit (s : string) : bytes := list_ascii_of_string s.

Definition SP : ascii := " "%char.
Definition NUL : ascii := Ascii.zero.

(** [len(s)], an [int]. *)
Definition len {A} (s : list A) : Z := Z.of_nat (length s).

(** The slice expression [s[lo:hi]] of a string or a slice whose capacity is
    its length: Go panics unless [0 <= lo <= hi <= len(s)]. *)
Definition slice {A} (s : list A) (lo hi : Z) : option (list A) :=
  if decide (0 ≤ lo ∧ lo ≤ hi ∧ hi ≤ len s)
  then Some (take (Z.to_nat (hi - lo)) (drop (Z.to_nat lo) s))
  else None.

(** [s[lo:]] and [s[:hi]]. *)
Definition slice_from {A} (s : list A) (lo : Z) : option (list A) :=
  slice s lo (len s).
Definition slice_to {A} (s : list A) (hi : Z) : option (list A) :=
  slice s 0 hi.

(** [strings.Index(s, substr)]: the index of the first instance of [substr]
    in [s], or [-1] when there is none. *)
Fixpoint strings_Index (s substr : bytes) : Z :=
  if decide (substr `prefix_of` s) then 0
  else match s with
       | [] => -1
       | _ :: s' =>
           let r := strings_Index s' substr in
           if decide (r < 0) then -1 else 1 + r
       end.

(** [bytes.IndexByte(b, c)]: the index of the first [c] in [b], or [-1]. *)
Fixpoint bytes_IndexByte (b : bytes) (c : ascii) : Z :=
  match b with
  | [] => -1
  | x :: b' =>
      if decide (x = c) then 0
      else let r := bytes_IndexByte b' c in
           if decide (r < 0) then -1 else 1 + r
  end.

(** ** Method and URL of the captured payload

    Both functions receive [event.Buf], the fixed-capacity array of the
    record, and convert the whole array to a string first. *)

(** [func (event *BPFHTTPInfo) url() string] *)
Definition url (Buf : bytes) : option bytes :=
  let buf := Buf in
  let space := strings_Index buf (lit " ") in
  if decide (space < 0) then Some []
  else
    rest ← slice_from buf (space + 1);
    let nextSpace := strings_Index rest (lit " ") in
    if decide (nextSpace < 0) then Some []
    else slice buf (space + 1) (nextSpace + space + 1).

(** [func (event *BPFHTTPInfo) method() string] *)
Definition method (Buf : bytes) : option bytes :=
  let buf := Buf in
  let space := strings_Index buf (lit " ") in
  if decide (space < 0) then Some []
  else slice_to buf space.

(** [func cstr(chars []uint8) string]: the bytes before the first zero byte,
    or all of them when there is none. *)
Definition cstr (chars : bytes) : option bytes :=
  let addrLen := bytes_IndexByte chars NUL in
  let addrLen := if decide (addrLen < 0) then len chars else addrLen in
  slice_to chars addrLen.

(** [copy(dst, src)]: the first [min(len(dst), len(src))] elements of [dst]
    are overwritten; the value is [dst] afterwards. *)
Definition copy (dst src : bytes) : bytes :=
  take (length dst) src ++ drop (length src) dst.

(** [binary.LittleEndian.Uint32]. *)
Definition LittleEndian_Uint32 (b : bytes) : N :=
  match b with
  | [b0; b1; b2; b3] =>
      N.lor (N.lor (N.lor (N_of_ascii b0) (N.shiftl (N_of_ascii b1) 8))
                   (N.shiftl (N_of_ascii b2) 16))
            (N.shiftl (N_of_ascii b3) 24)
  | _ => 0%N
  end.

(** ** Errors *)

Inductive error : Type :=
  | io_EOF
  | io_ErrUnexpectedEOF
  | fs_ErrNotExist
  | fs_ErrPermission
  | ebpf_ErrKeyNotExist
  | errors_New (msg : string).

(** [os.IsNotExist(err)]; [None] is Go's [nil] error. *)
Definition os_IsNotExist (err : option error) : bool :=
  match err with
  | Some fs_ErrNotExist => true
  | _ => false
  end.

(** [io.ReadFull(r, buf)] on a [bytes.Buffer] holding [r], for a [buf] of [n]
    bytes: the bytes read and the error.  An empty reader gives [io.EOF], a
    reader that runs dry before [n] bytes gives [io.ErrUnexpectedEOF]. *)
Definition io_ReadFull (r : bytes) (n : nat) : bytes * option error :=
  if decide (n ≤ length r)%nat then (take n r, None)
  else if decide (length r = 0%nat) then ([], Some io_EOF)
  else (r, Some io_ErrUnexpectedEOF).

(** ** The records *)

(** Modelled from the spec: the generated struct [bpfConnectionInfoT] is not
    among the sources; section 3 gives it as a pair of 16-byte address fields,
    source then destination. *)
Record BPFConnInfo : Type := mkBPFConnInfo {
  S_addr : bytes;
  D_addr : bytes
}.

(** Modelled from the spec: the generated struct [bpfHttpInfoT] is not among
    the sources; section 3 gives it as the connection info, a 4-byte pid and a
    fixed-capacity buffer, little-endian. *)
Record BPFHTTPInfo : Type := mkBPFHTTPInfo {
  ConnInfo : BPFConnInfo;
  Pid : N;
  Buf : bytes
}.

Record HTTPInfo : Type := mkHTTPInfo {
  Event : BPFHTTPInfo;
  Method : bytes;
  URL : bytes;
  Comm : bytes;
  Host : bytes;
  Peer : bytes
}.

Definition IPv6len : nat := 16.

(** [ebpfcommon.TracerConfig], the two fields the package reads. *)
Record TracerConfig : Type := mkTracerConfig {
  SystemWide : bool;
  BpfDebug : bool
}.

(** A loaded program is a handle; a [*ebpf.Program] is a handle or [nil]. *)
Definition Program : Type := N.

(** The program fields of the generated [bpfObjects]. *)
Record bpfObjects : Type := mkBpfObjects {
  KretprobeSysAccept4 : option Program;
  KretprobeSockAlloc : option Program;
  KprobeTcpRcvEstablished : option Program;
  KretprobeSysConnect : option Program;
  KprobeTcpConnect : option Program;
  KprobeSysExit : option Program;
  SocketHttpFilter : option Program
}.

Record Tracer : Type := mkTracer {
  Cfg : TracerConfig;
  objects : bpfObjects
}.

(** [ebpfcommon.FunctionPrograms]: a field left out of a composite literal is
    [nil]. *)
Record FunctionPrograms : Type := mkFunctionPrograms {
  Required : bool;
  Start : option Program;
  End_ : option Program
}.

(** ** What the package reads from outside

    The proc filesystem, the kernel's map of dead pids and the namespace
    lookup answer differently from one call to the next; an answer is read
    from the [World] current at the call. *)
Record World : Type := mkWorld {
  (** [os.Stat(path)]: the error, [None] when the file is there. *)
  os_Stat : string → option error;
  (** [os.ReadFile(path)]: the bytes read so far and the error. *)
  os_ReadFile : string → bytes * option error;
  (** The kernel's [dead_pids] map: pid to the snapshot of the command name. *)
  DeadPids : gmap N bytes;
  (** [findNamespace(pid)], of this package but not among the sources: the
      namespace id and the error. *)
  findNamespace : Z → N * option error
}.

Inductive io_event : Type :=
  | IoStat (path : string)
  | IoReadFile (path : string)
  | IoDeadPidsLookup (pid : N).

Inductive log_entry : Type :=
  | Warn (msg : string) (err : error).

(** ** The LRU cache ([hashicorp/golang-lru/v2], [simplelru])

    The eviction list with its index, as the list of the entries from the
    most recently used to the oldest. *)
Section lru.
Context {K V : Type} `{EqDecision K}.

Fixpoint lru_find (key : K) (c : list (K * V)) : option V :=
  match c with
  | [] => None
  | (k, v) :: c' => if decide (k = key) then Some v else lru_find key c'
  end.

Definition lru_remove (key : K) (c : list (K * V)) : list (K * V) :=
  filter (λ e, e.1 ≠ key) c.

(** [Get]: a hit moves the entry to the front. *)
Definition lru_Get (key : K) (c : list (K * V)) : option V * list (K * V) :=
  match lru_find key c with
  | Some v => (Some v, (key, v) :: lru_remove key c)
  | None => (None, c)
  end.

(** [Add]: an existing key is moved to the front with the new value; a new
    one is pushed to the front, and the oldest entry is removed when the list
    is then longer than [size].  The boolean says whether one was evicted. *)
Definition lru_Add (size : nat) (key : K) (value : V) (c : list (K * V))
  : bool * list (K * V) :=
  match lru_find key c with
  | Some _ => (false, (key, value) :: lru_remove key c)
  | None =>
      let c' := (key, value) :: c in
      if decide (size < length c')%nat then (true, removelast c')
      else (false, c')
  end.

Definition lru_Keys (c : list (K * V)) : list K := c.*1.
End lru.

(** [lru.New(size)] fails on a size that is not positive. *)
Definition lru_New (size : Z) : option (list (N * bytes)) :=
  if decide (0 < size) then Some [] else None.

(** [var activePids, _ = lru.New[uint32, string](64)] *)
Definition activePids_size : nat := 64.

(** ** State and effects

    The package's one global, the cache [activePids], and a log of the calls
    made to the outside; a computation may panic. *)
Record State : Type := mkState {
  activePids : list (N * bytes);
  io_log : list io_event
}.

Definition M (A : Type) : Type := State → option (A * State).

#[export] Instance M_ret : MRet M := λ A a s, Some (a, s).
#[export] Instance M_bind : MBind M := λ A B f m s,
  match m s with
  | Some (a, s') => f a s'
  | None => None
  end.

(** A pure step that may panic. *)
Definition lift {A} (o : option A) : M A := λ s,
  match o with
  | Some a => Some (a, s)
  | None => None
  end.

Definition io (e : io_event) : M () := λ s,
  Some ((), mkState (activePids s) (io_log s ++ [e])).

Definition logged (s : State) (evs : list io_event) : State :=
  mkState (activePids s) (io_log s ++ evs).

Definition activePids_Get (key : N) : M (option bytes) := λ s,
  let '(r, c) := lru_Get key (activePids s) in
  Some (r, mkState c (io_log s)).

Definition activePids_Add (key : N) (value : bytes) : M bool := λ s,
  let '(r, c) := lru_Add activePids_size key value (activePids s) in
  Some (r, mkState c (io_log s)).

Definition init_state : State := mkState (default [] (lru_New 64)) [].

(** ** The declarations handed to the attacher *)

(** A value of a [map[string]any]. *)
Inductive any : Type :=
  | Int32 (z : Z)
  | Uint32 (n : N).

(** [exec.FileInfo], the field the package reads. *)
Record FileInfo : Type := mkFileInfo {
  FileInfo_Pid : Z
}.

(** [func (p *Tracer) Constants(finfo *exec.FileInfo, _ *goexec.Offsets)
    map[string]any]: the map ([None] is the [nil] map) and what was logged. *)
Definition Constants (p : Tracer) (w : World) (finfo : FileInfo)
  : option (gmap string any) * list log_entry :=
  if SystemWide (Cfg p) then (None, [])
  else
    let m : gmap string any := {[ "current_pid" := Int32 (FileInfo_Pid finfo) ]} in
    let '(npid, err) := findNamespace w (FileInfo_Pid finfo) in
    let logged :=
      match err with
      | Some e =>
          [Warn "error while looking up namespace pid, namespace pid matching will not work" e]
      | None => []
      end in
    let m := <[ "current_pid_ns_id" := Uint32 npid ]> m in
    (Some m, logged).

(** [func (p *Tracer) KProbes() map[string]ebpfcommon.FunctionPrograms] *)
Definition KProbes (p : Tracer) : gmap string FunctionPrograms :=
  let kprobes : gmap string FunctionPrograms :=
    list_to_map [
      ("sys_accept", mkFunctionPrograms true None (KretprobeSysAccept4 (objects p)));
      ("sys_accept4", mkFunctionPrograms true None (KretprobeSysAccept4 (objects p)));
      ("sock_alloc", mkFunctionPrograms true None (KretprobeSockAlloc (objects p)));
      ("tcp_rcv_established",
        mkFunctionPrograms true (KprobeTcpRcvEstablished (objects p)) None);
      ("sys_connect", mkFunctionPrograms true None (KretprobeSysConnect (objects p)));
      ("tcp_connect", mkFunctionPrograms true (KprobeTcpConnect (objects p)) None)
    ] in
  if SystemWide (Cfg p) then
    let kprobes :=
      <[ "sys_exit" := mkFunctionPrograms true (KprobeSysExit (objects p)) None ]> kprobes in
    let kprobes :=
      <[ "sys_exit_group" := mkFunctionPrograms true (KprobeSysExit (objects p)) None ]> kprobes in
    kprobes
  else kprobes.

(** ** Library functions and the layout constant taken as given

    [strings.TrimSpace] and [net.IP.String] belong to Go's library, and the
    capacity of the payload buffer to the generated bindings; the package's
    functions are defined over whatever they are. *)
Class GoLib : Type := {
  strings_TrimSpace : bytes → bytes;
  net_IP_String : bytes → bytes
}.

Class Layout : Type := {
  BUF_SIZE : nat
}.

Section tracer.
Context {lib : GoLib} {layout : Layout}.

(** The zero values of the records. *)
Definition zero_BPFHTTPInfo : BPFHTTPInfo :=
  mkBPFHTTPInfo (mkBPFConnInfo (replicate 16 NUL) (replicate 16 NUL)) 0
    (replicate BUF_SIZE NUL).

Definition zero_HTTPInfo : HTTPInfo :=
  mkHTTPInfo zero_BPFHTTPInfo [] [] [] [] [].

(** [binary.Size] of a [BPFHTTPInfo]. *)
Definition dataSize : nat := (16 + 16 + 4 + BUF_SIZE)%nat.

(** [binary.Read(bytes.NewBuffer(b), binary.LittleEndian, &event)]: the whole
    record is read first; on an error [event] is left as it was; bytes past
    the record are ignored. *)
Definition binary_Read (b : bytes) (event : BPFHTTPInfo)
  : BPFHTTPInfo * option error :=
  let '(buf, err) := io_ReadFull b dataSize in
  match err with
  | Some e => (event, Some e)
  | None =>
      (mkBPFHTTPInfo
         (mkBPFConnInfo (take 16 buf) (take 16 (drop 16 buf)))
         (LittleEndian_Uint32 (take 4 (drop 32 buf)))
         (take BUF_SIZE (drop 36 buf)),
       None)
  end.

(** [func (event *BPFHTTPInfo) hostInfo() (source, target string)] *)
Definition hostInfo (event : BPFHTTPInfo) : bytes * bytes :=
  let src := replicate IPv6len NUL in
  let dst := replicate IPv6len NUL in
  let src := copy src (S_addr (ConnInfo event)) in
  let dst := copy dst (D_addr (ConnInfo event)) in
  (net_IP_String src, net_IP_String dst).

(** [p.bpfObjects.DeadPids.Lookup(pid, &name)]: the array afterwards and the
    error.  A missing key and a value of another size than the array are
    errors, and leave the array as it was. *)
Definition DeadPids_Lookup (w : World) (pid : N) (name : bytes)
  : M (bytes * option error) :=
  _ ← io (IoDeadPidsLookup pid);
  mret (match DeadPids w !! pid with
        | None => (name, Some ebpf_ErrKeyNotExist)
        | Some v =>
            if decide (length v = length name) then (v, None)
            else (name, Some (errors_New "value size mismatch"))
        end).

(** [func (p *Tracer) commNameOfDeadPid(pid uint32) string] *)
Definition commNameOfDeadPid (w : World) (pid : N) : M bytes :=
  let name := replicate 16 NUL in
  '(name, err) ← DeadPids_Lookup w pid name;
  match err with
  | Some _ => mret []
  | None => lift (cstr name)
  end.

(** [filepath.Join("/proc", strconv.FormatUint(uint64(pid), 10), "comm")];
    the joined path is clean as it is. *)
Definition procPath (pid : N) : string :=
  "/proc" +:+ "/" +:+ pretty pid +:+ "/" +:+ "comm".

(** [func (p *Tracer) commName(pid uint32) string].  When reading the file
    fails, the name of the dead pid is looked up and the answer dropped. *)
Definition commName (w : World) (pid : N) : M bytes :=
  let procPath := procPath pid in
  _ ← io (IoStat procPath);
  let err := os_Stat w procPath in
  if os_IsNotExist err then commNameOfDeadPid w pid
  else
    _ ← io (IoReadFile procPath);
    let '(name, err) := os_ReadFile w procPath in
    _ ← match err with
        | Some _ => _ ← commNameOfDeadPid w pid; mret ()
        | None => mret ()
        end;
    mret (strings_TrimSpace name).

(** [func (p *Tracer) serviceName(pid uint32) string] *)
Definition serviceName (w : World) (pid : N) : M bytes :=
  r ← activePids_Get pid;
  match r with
  | Some cached => mret cached
  | None =>
      name ← commName w pid;
      _ ← activePids_Add pid name;
      mret name
  end.

(** [func (p *Tracer) toRequestTrace(record *ringbuf.Record) (any, error)],
    on [record.RawSample]. *)
Definition toRequestTrace (p : Tracer) (w : World) (RawSample : bytes)
  : M (HTTPInfo * option error) :=
  let event := zero_BPFHTTPInfo in
  let result := zero_HTTPInfo in
  let '(event, err) := binary_Read RawSample event in
  match err with
  | Some e => mret (result, Some e)
  | None =>
      let '(source, target) := hostInfo event in
      url_ ← lift (url (Buf event));
      method_ ← lift (method (Buf event));
      comm ← (if SystemWide (Cfg p) then serviceName w (Pid event) else mret []);
      mret (mkHTTPInfo event method_ url_ comm target source, None)
  end.

(** What [commNameOfDeadPid] and [commName] compute and which calls they make,
    as functions of the world alone; [commNameOfDeadPid_run] and
    [commName_run] below relate the code to them. *)
Definition dead_name (w : World) (pid : N) : bytes :=
  match DeadPids w !! pid with
  | None => []
  | Some v => if decide (length v = 16%nat) then default [] (cstr v) else []
  end.

Definition commName_value (w : World) (pid : N) : bytes :=
  if os_IsNotExist (os_Stat w (procPath pid)) then dead_name w pid
  else strings_TrimSpace (os_ReadFile w (procPath pid)).1.

Definition commName_io (w : World) (pid : N) : list io_event :=
  IoStat (procPath pid) ::
  if os_IsNotExist (os_Stat w (procPath pid)) then [IoDeadPidsLookup pid]
  else IoReadFile (procPath pid) ::
       match (os_ReadFile w (procPath pid)).2 with
       | Some _ => [IoDeadPidsLookup pid]
       | None => []
       end.

(** Resolving a sequence of pids, each against the world current at its
    call. *)
Fixpoint resolve_all (calls : list (World * N)) : M (list bytes) :=
  match calls with
  | [] => mret []
  | (w, pid) :: calls' =>
      name ← serviceName w pid;
      names ← resolve_all calls';
      mret (name :: names)
  end.

End tracer.

(** ** The order of use

    The distinct pids of a sequence of calls, from the one used last to the
    one whose last use is the oldest. *)
Definition touch (pid : N) (order : list N) : list N :=
  pid :: filter (λ k, k ≠ pid) order.

Definition recency (pids : list N) : list N :=
  foldl (λ order pid, touch pid order) [] pids.

(** ** The library on the inputs of the examples

    [strings.TrimSpace] on a string of ASCII bytes removes the leading and
    the trailing bytes among tab, line feed, vertical tab, form feed,
    carriage return and space.  (On a byte from 0x80 on Go decodes UTF-8;
    here such a byte is kept, so this is the library's function on ASCII
    input only.) *)
Definition asciiSpace (c : ascii) : bool :=
  match N_of_ascii c with
  | 9%N | 10%N | 11%N | 12%N | 13%N | 32%N => true
  | _ => false
  end.

Fixpoint trim_left (f : ascii → bool) (s : bytes) : bytes :=
  match s with
  | [] => []
  | c :: s' => if f c then trim_left f s' else s
  end.

Definition trim_right (f : ascii → bool) (s : bytes) : bytes :=
  reverse (trim_left f (reverse s)).

Definition ascii_TrimSpace (s : bytes) : bytes :=
  trim_right asciiSpace (trim_left asciiSpace s).

(** [net.IP.String] of a 16-byte address: dotted decimal for an IPv4-mapped
    address, and otherwise the eight 16-bit groups in lower-case hexadecimal
    without leading zeros, the first longest run of two or more zero groups
    written [::]. *)
Definition hex_digit (n : N) : ascii :=
  ascii_of_N (if decide (n < 10)%N then 48 + n else 87 + n).

Definition appendHex (n : N) : bytes :=
  let d3 := (n / 4096)%N in
  let d2 := (n / 256 mod 16)%N in
  let d1 := (n / 16 mod 16)%N in
  let d0 := (n mod 16)%N in
  if decide (4096 ≤ n)%N then [hex_digit d3; hex_digit d2; hex_digit d1; hex_digit d0]
  else if decide (256 ≤ n)%N then [hex_digit d2; hex_digit d1; hex_digit d0]
  else if decide (16 ≤ n)%N then [hex_digit d1; hex_digit d0]
  else [hex_digit d0].

Fixpoint groups16 (ip : bytes) : list N :=
  match ip with
  | hi :: lo :: ip' => (N_of_ascii hi * 256 + N_of_ascii lo)%N :: groups16 ip'
  | _ => []
  end.

Fixpoint zero_run (g : list N) : nat :=
  match g with
  | 0%N :: g' => S (zero_run g')
  | _ => 0%nat
  end.

(** The start and the length of the first longest run of zero groups from
    index [i] on, given the best one before. *)
Fixpoint longest_run (g : list N) (i : nat) (best : nat * nat) : nat * nat :=
  match g with
  | [] => best
  | _ :: g' =>
      let r := zero_run g in
      longest_run g' (S i) (if decide (best.2 < r)%nat then (i, r) else best)
  end.

Fixpoint join_groups (g : list N) : bytes :=
  match g with
  | [] => []
  | [x] => appendHex x
  | x :: g' => appendHex x ++ lit ":" ++ join_groups g'
  end.

Definition string6 (ip : bytes) : bytes :=
  let g := groups16 ip in
  let '(e0, n) := longest_run g 0%nat (0%nat, 0%nat) in
  if decide (n < 2)%nat then join_groups g
  else join_groups (take e0 g) ++ lit "::" ++ join_groups (drop (e0 + n) g).

Fixpoint dotted (ip : bytes) : bytes :=
  match ip with
  | [] => []
  | [b] => lit (pretty (N_of_ascii b))
  | b :: ip' => lit (pretty (N_of_ascii b)) ++ lit "." ++ dotted ip'
  end.

Definition To4 (ip : bytes) : option bytes :=
  if decide (length ip = 4%nat) then Some ip
  else if decide (length ip = 16%nat ∧ take 10 ip = replicate 10 NUL
                  ∧ drop 10 (take 12 ip) = [ascii_of_N 255; ascii_of_N 255])
  then Some (drop 12 ip)
  else None.

Definition hexString (b : bytes) : bytes :=
  b ≫= λ c, [hex_digit (N_of_ascii c / 16); hex_digit (N_of_ascii c mod 16)].

Definition IP_String (ip : bytes) : bytes :=
  if decide (length ip = 0%nat) then lit "<nil>"
  else if decide (length ip ≠ 4%nat ∧ length ip ≠ 16%nat) then lit "?" ++ hexString ip
  else match To4 ip with
       | Some p4 => dotted p4
       | None => string6 ip
       end.

Definition example_lib : GoLib :=
  {| strings_TrimSpace := ascii_TrimSpace; net_IP_String := IP_String |}.

Definition example_layout : Layout := {| BUF_SIZE := 160 |}.

(** ** Worlds and inputs of the examples *)

(** A world read off a snapshot of the process table (pid to the content of
    its [comm] file) and of the map of dead pids: a path exists and can be
    read exactly when it is the [comm] file of a live pid. *)
Definition comm_file (live : gmap N bytes) (path : string) : option bytes :=
  (λ e, e.2.2) <$> list_find (λ e, procPath e.1 = path) (map_to_list live).

Definition snapshot_world (live dead : gmap N bytes) : World :=
  {| os_Stat path :=
       match comm_file live path with
       | Some _ => None
       | None => Some fs_ErrNotExist
       end;
     os_ReadFile path :=
       match comm_file live path with
       | Some content => (content, None)
       | None => ([], Some fs_ErrNotExist)
       end;
     DeadPids := dead;
     findNamespace _ := (0%N, Some (errors_New "failed to open the namespace link")) |}.

Definition LF : ascii := ascii_of_N 10.
Definition CR : ascii := ascii_of_N 13.

(** Pid 7 runs [nginx]. *)
Definition world_nginx_alive : World :=
  snapshot_world {[ 7%N := lit "nginx" ++ [LF] ]} ∅.

(** Pid 7 is gone and left no trace. *)
Definition world_empty : World := snapshot_world ∅ ∅.

(** Pid 9 has exited; its command name was [sh] followed by a space. *)
Definition snapshot_sh : bytes := lit "sh " ++ replicate 13 NUL.

Definition world_sh_dead : World := snapshot_world ∅ {[ 9%N := snapshot_sh ]}.

(** The spec's reading of the snapshot: the trailing padding and white space
    removed. *)
Definition spec_trim_snapshot (snap : bytes) : bytes :=
  trim_right (λ c, bool_decide (c = NUL) || asciiSpace c) snap.

(** The spec's reading of a paired probe: an entry and an exit program. *)
Definition paired_entry_exit (fp : FunctionPrograms) : Prop :=
  is_Some (Start fp) ∧ is_Some (End_ fp).

Definition programs_loaded : bpfObjects :=
  mkBpfObjects (Some 1%N) (Some 2%N) (Some 3%N) (Some 4%N) (Some 5%N) (Some 6%N)
    (Some 7%N).

Definition tracer_single : Tracer :=
  mkTracer (mkTracerConfig false false) programs_loaded.

Definition tracer_system_wide : Tracer :=
  mkTracer (mkTracerConfig true false) programs_loaded.

(** A sample of a full record: peer 10.0.0.2, host 10.0.0.1, pid 7 and a
    request line at the start of the buffer. *)
Definition sample_get_foo : bytes :=
  (replicate 10 NUL ++ map ascii_of_N [255; 255; 10; 0; 0; 2]%N) ++
  (replicate 10 NUL ++ map ascii_of_N [255; 255; 10; 0; 0; 1]%N) ++
  map ascii_of_N [7; 0; 0; 0]%N ++
  lit "GET /foo HTTP/1.1" ++ [CR; LF] ++ replicate 141 NUL.

(** Pids 1 to 65, each resolved once in an empty world. *)
Definition calls_1_to_65 : list (World * N) :=
  map (λ n, (world_empty, N.of_nat n)) (seq 1 65).

(** ** The kernel version ([ebpfcommon.KernelVersion])

    [syscall.Utsname.Release] is a [[65]int8]; each element is kept as its
    byte and read as an [int8] where the loop compares it.  Go's [int] has 64
    bits on the two targets of the package (amd64, arm64) and wraps. *)
Definition int8 (b : ascii) : Z :=
  let n := Z.of_N (N_of_ascii b) in
  if decide (n < 128) then n else n - 256.

Definition wrap_int (z : Z) : Z := (z + 2 ^ 63) `mod` 2 ^ 64 - 2 ^ 63.

(** [syscall.Utsname], the field the function reads. *)
Record Utsname : Type := mkUtsname {
  Release : bytes
}.

(** The array has 65 elements: what [syscall.Uname] fills in is a release
    string, its terminating zero byte and zero bytes up to the end. *)
Definition Release_len : nat := 65.

Definition Utsname_ok (uts : Utsname) : Prop :=
  length (Release uts) = Release_len.


(** The [for ... range uname.Release] loop, from the elements still to
    visit, the array [values] and the variables [value] and [vi]; it gives
    [values] when the loop ends or breaks. *)
Fixpoint KernelVersion_loop (release : bytes) (values : list Z) (value vi : Z)
  : list Z :=
  match release with
  | [] => values
  | b :: release' =>
      let c := int8 b in
      if decide (48 ≤ c ∧ c ≤ 57) then
        let value := wrap_int (wrap_int (value * 10) + (c - 48)) in
        KernelVersion_loop release' values value vi
      else
        let values := <[Z.to_nat vi := value]> values in
        let vi := vi + 1 in
        if decide (len values ≤ vi) then values
        else KernelVersion_loop release' values 0 vi
  end.

(** [func KernelVersion() (major, minor int)], on what [syscall.Uname]
    answers: the structure it filled and its error. *)
Definition KernelVersion (uname : Utsname * option error) : Z * Z :=
  match uname.2 with
  | Some _ => (0, 0)
  | None =>
      let values := KernelVersion_loop (Release uname.1) [0; 0] 0 0 in
      (nth 0 values 0, nth 1 values 0)
  end.

(** The number a run of decimal digits writes, from the number [v] of the
    digits before it; and the same in Go's wrapping [int]. *)
Definition digit (b : ascii) : Prop := 48 ≤ int8 b ∧ int8 b ≤ 57.

Definition decimal_from (v : Z) (ds : bytes) : Z :=
  foldl (λ v b, v * 10 + (int8 b - 48)) v ds.

Definition decimal64_from (v : Z) (ds : bytes) : Z :=
  foldl (λ v b, wrap_int (wrap_int (v * 10) + (int8 b - 48))) v ds.

(** A release string in its 65-byte array. *)
Definition release_array (s : string) : bytes :=
  take 65 (lit s ++ replicate 65 NUL).

Definition uname_6_8 : Utsname * option error :=
  (mkUtsname (release_array "6.8.0-45-generic"), None).

(** The file of pid 9 is there when it is looked for and gone when it is
    read; the map of dead pids has its name. *)
Definition world_read_fails : World :=
  {| os_Stat _ := None;
     os_ReadFile _ := ([], Some fs_ErrNotExist);
     DeadPids := {[ 9%N := snapshot_sh ]};
     findNamespace _ := (0%N, None) |}.

(** * Properties *)

(** ** Slices and searches *)

Lemma len_app {A} (l k : list A) : len (l ++ k) = len l + len k.
Proof. unfold len. rewrite length_app. lia. Qed.

Lemma len_cons {A} (x : A) (l : list A) : len (x :: l) = 1 + len l.
Proof. unfold len. simpl. lia. Qed.

Lemma len_nonneg {A} (l : list A) : 0 ≤ len l.
Proof. unfold len. lia. Qed.

Lemma slice_Some {A} (s : list A) lo hi :
  0 ≤ lo → lo ≤ hi → hi ≤ len s →
  slice s lo hi = Some (take (Z.to_nat (hi - lo)) (drop (Z.to_nat lo) s)).
Proof. intros. unfold slice. rewrite decide_True; [done | lia]. Qed.

Lemma slice_to_app {A} (l k : list A) : slice_to (l ++ k) (len l) = Some l.
Proof.
  unfold slice_to. rewrite slice_Some.
  - f_equal. rewrite Z.sub_0_r. change (Z.to_nat 0) with 0%nat. rewrite drop_0.
    unfold len. rewrite Nat2Z.id. by rewrite take_app_length.
  - done.
  - apply len_nonneg.
  - rewrite len_app. pose proof (len_nonneg k). lia.
Qed.

Lemma slice_to_all {A} (l : list A) : slice_to l (len l) = Some l.
Proof.
  rewrite <- (app_nil_r l) at 1. apply slice_to_app.
Qed.

Lemma slice_from_app {A} (l k : list A) : slice_from (l ++ k) (len l) = Some k.
Proof.
  unfold slice_from. rewrite slice_Some.
  - f_equal. unfold len. rewrite Nat2Z.id, drop_app_length.
    rewrite length_app. apply take_ge. lia.
  - apply len_nonneg.
  - rewrite len_app. pose proof (len_nonneg k). lia.
  - done.
Qed.

Lemma slice_mid {A} (l k r : list A) :
  slice (l ++ k ++ r) (len l) (len l + len k) = Some k.
Proof.
  rewrite slice_Some.
  - f_equal. unfold len. rewrite Nat2Z.id, drop_app_length.
    replace (Z.to_nat _) with (length k) by lia. by rewrite take_app_length.
  - apply len_nonneg.
  - pose proof (len_nonneg k). lia.
  - rewrite !len_app. pose proof (len_nonneg r). lia.
Qed.

Lemma prefix_singleton (c : ascii) (s : bytes) :
  [c] `prefix_of` s ↔ ∃ s', s = c :: s'.
Proof.
  split.
  - intros [k ->]. by exists k.
  - intros [s' ->]. by exists s'.
Qed.

(** With a one-byte needle, the search is the search for that byte. *)
Lemma strings_Index_byte (s : bytes) (c : ascii) :
  strings_Index s [c] = bytes_IndexByte s c.
Proof.
  induction s as [|x s IH]; cbn [strings_Index bytes_IndexByte].
  - case_decide as Hp; [|done]. apply prefix_singleton in Hp as [? ?]. done.
  - rewrite IH. destruct (decide (x = c)) as [->|Hne].
    + rewrite decide_True; [done|]. apply prefix_singleton. by eexists.
    + rewrite decide_False; [done|].
      rewrite prefix_singleton. intros [? ?]. congruence.
Qed.

Lemma bytes_IndexByte_absent (s : bytes) (c : ascii) :
  c ∉ s → bytes_IndexByte s c = -1.
Proof.
  induction s as [|x s IH]; simpl; [done|].
  intros Hnin. apply not_elem_of_cons in Hnin as [Hne Hnin].
  rewrite decide_False by done. rewrite IH by done. done.
Qed.

Lemma bytes_IndexByte_first (m r : bytes) (c : ascii) :
  c ∉ m → bytes_IndexByte (m ++ c :: r) c = len m.
Proof.
  induction m as [|x m IH]; simpl.
  - intros _. by rewrite decide_True.
  - intros Hnin. apply not_elem_of_cons in Hnin as [Hne Hnin].
    rewrite decide_False by done. rewrite IH by done.
    rewrite len_cons. pose proof (len_nonneg m).
    rewrite decide_False by lia. done.
Qed.

(** A found index splits the string at the first occurrence. *)
Lemma bytes_IndexByte_found (s : bytes) (c : ascii) :
  0 ≤ bytes_IndexByte s c →
  ∃ m r, s = m ++ c :: r ∧ (c ∉ m) ∧ bytes_IndexByte s c = len m.
Proof.
  induction s as [|x s IH]; simpl; [lia|].
  destruct (decide (x = c)) as [->|Hne].
  - intros _. exists [], s. split_and!; [done | apply not_elem_of_nil | done].
  - destruct (decide (bytes_IndexByte s c < 0)); [lia|].
    intros _. destruct IH as (m & r & -> & Hnin & Heq); [lia|].
    exists (x :: m), r. split_and!.
    + done.
    + apply not_elem_of_cons. split; [congruence | done].
    + rewrite Heq, len_cons. done.
Qed.

(** ** Method and URL *)

Lemma method_no_space (Buf : bytes) : SP ∉ Buf → method Buf = Some [].
Proof.
  intros Hnin. unfold method, lit. simpl.
  rewrite strings_Index_byte, bytes_IndexByte_absent by done. done.
Qed.

Lemma url_no_space (Buf : bytes) : SP ∉ Buf → url Buf = Some [].
Proof.
  intros Hnin. unfold url, lit. simpl.
  rewrite strings_Index_byte, bytes_IndexByte_absent by done. done.
Qed.

Lemma method_first_space (m rest : bytes) :
  SP ∉ m → method (m ++ SP :: rest) = Some m.
Proof.
  intros Hnin. unfold method, lit. simpl.
  rewrite strings_Index_byte, bytes_IndexByte_first by done.
  pose proof (len_nonneg m). rewrite decide_False by lia.
  apply slice_to_app.
Qed.

Lemma url_rest (m rest : bytes) :
  SP ∉ m →
  url (m ++ SP :: rest) =
    (let nextSpace := bytes_IndexByte rest SP in
     if decide (nextSpace < 0) then Some []
     else slice (m ++ SP :: rest) (len m + 1) (nextSpace + len m + 1)).
Proof.
  intros Hnin. unfold url, lit. simpl.
  rewrite strings_Index_byte, bytes_IndexByte_first by done.
  pose proof (len_nonneg m). rewrite decide_False by lia.
  replace (m ++ SP :: rest) with ((m ++ [SP]) ++ rest) at 1
    by (by rewrite <- app_assoc).
  replace (len m + 1) with (len (m ++ [SP])) at 1
    by (rewrite len_app, len_cons; done).
  rewrite slice_from_app. simpl.
  by rewrite strings_Index_byte.
Qed.

Lemma url_one_space (m rest : bytes) :
  SP ∉ m → SP ∉ rest → url (m ++ SP :: rest) = Some [].
Proof.
  intros Hm Hrest. rewrite url_rest by done. simpl.
  rewrite bytes_IndexByte_absent by done. done.
Qed.

Lemma url_two_spaces (m u rest' : bytes) :
  SP ∉ m → SP ∉ u → url (m ++ SP :: u ++ SP :: rest') = Some u.
Proof.
  intros Hm Hu. rewrite url_rest by done. simpl.
  rewrite bytes_IndexByte_first by done.
  pose proof (len_nonneg u). rewrite decide_False by lia.
  replace (m ++ SP :: u ++ SP :: rest') with ((m ++ [SP]) ++ u ++ SP :: rest')
    by (by rewrite <- app_assoc).
  assert (len (m ++ [SP]) = len m + 1) as Hlen by (by rewrite len_app, len_cons).
  replace (len u + len m + 1) with (len (m ++ [SP]) + len u) by lia.
  rewrite <- Hlen. apply slice_mid.
Qed.

(** Neither function can panic: every slice they take is within bounds. *)
Lemma method_total (Buf : bytes) : is_Some (method Buf).
Proof.
  destruct (decide (bytes_IndexByte Buf SP < 0)) as [Hneg|Hpos].
  - unfold method, lit. simpl. rewrite strings_Index_byte.
    rewrite decide_True by done. done.
  - destruct (bytes_IndexByte_found Buf SP) as (m & r & -> & Hnin & _); [lia|].
    rewrite method_first_space by done. done.
Qed.

Lemma url_total (Buf : bytes) : is_Some (url Buf).
Proof.
  destruct (decide (bytes_IndexByte Buf SP < 0)) as [Hneg|Hpos].
  - unfold url, lit. simpl. rewrite strings_Index_byte.
    rewrite decide_True by done. done.
  - destruct (bytes_IndexByte_found Buf SP) as (m & r & -> & Hnin & _); [lia|].
    destruct (decide (bytes_IndexByte r SP < 0)) as [Hneg'|Hpos'].
    + rewrite url_rest by done. simpl. rewrite decide_True by done. done.
    + destruct (bytes_IndexByte_found r SP) as (u & r' & -> & Hnin' & _); [lia|].
      rewrite url_two_spaces by done. done.
Qed.

(** C2. For every buffer: without a space, [method] and [url] both give the
    empty string and no error; with one, [method] gives the bytes before the
    first space; [url] gives the empty string when no second space follows,
    and otherwise the bytes strictly between the first and the second space.
    A buffer that starts with the request line [GET /foo HTTP/1.1] gives
    [GET] and [/foo]. *)
Theorem method_url_extraction (Buf : bytes) :
  (SP ∉ Buf → method Buf = Some [] ∧ url Buf = Some []) ∧
  (∀ m rest, Buf = m ++ SP :: rest → SP ∉ m →
     method Buf = Some m ∧
     (SP ∉ rest → url Buf = Some []) ∧
     (∀ u rest', rest = u ++ SP :: rest' → SP ∉ u → url Buf = Some u)) ∧
  (∀ tail, Buf = lit "GET /foo HTTP/1.1" ++ tail →
     method Buf = Some (lit "GET") ∧ url Buf = Some (lit "/foo")).
Proof.
  split_and!.
  - intros Hnin. split; [by apply method_no_space | by apply url_no_space].
  - intros m rest -> Hm. split_and!.
    + by apply method_first_space.
    + intros Hrest. by apply url_one_space.
    + intros u rest' -> Hu. by apply url_two_spaces.
  - intros tail ->. split.
    + apply (method_first_space (lit "GET") (lit "/foo HTTP/1.1" ++ tail)).
      compute_done.
    + apply (url_two_spaces (lit "GET") (lit "/foo") (lit "HTTP/1.1" ++ tail));
        compute_done.
Qed.

(** C10. The scan does not stop at a zero byte: a space behind an embedded
    zero byte is still the delimiter, and the method and the URL returned
    contain the zero bytes that stand before it. *)
Theorem extraction_ignores_NUL (pre post upre upost rest : bytes) :
  SP ∉ pre → SP ∉ post → SP ∉ upre → SP ∉ upost →
  let Buf := (pre ++ NUL :: post) ++ SP :: (upre ++ NUL :: upost) ++ SP :: rest in
  method Buf = Some (pre ++ NUL :: post) ∧
  url Buf = Some (upre ++ NUL :: upost) ∧
  NUL ∈ pre ++ NUL :: post ∧
  NUL ∈ upre ++ NUL :: upost.
Proof.
  intros Hpre Hpost Hupre Hupost Buf.
  assert (SP ≠ NUL) as Hne by (unfold SP, NUL; discriminate).
  assert (∀ a b : bytes, SP ∉ a → SP ∉ b → SP ∉ a ++ NUL :: b) as Hembed.
  { intros a b Ha Hb. rewrite elem_of_app, elem_of_cons. intros [?|[?|?]]; done. }
  split_and!.
  - apply method_first_space. by apply Hembed.
  - apply url_two_spaces; by apply Hembed.
  - apply elem_of_app. right. apply list_elem_of_here.
  - apply elem_of_app. right. apply list_elem_of_here.
Qed.

(** X1. Neither [method] nor [url] panics, whatever the buffer holds: a
    missing delimiter gives the empty string, and every slice taken is within
    the buffer. *)
Theorem extraction_never_panics (Buf : bytes) :
  (∃ m, method Buf = Some m ∧ (length m ≤ length Buf)%nat) ∧
  (∃ u, url Buf = Some u ∧ (length u ≤ length Buf)%nat).
Proof.
  split.
  - destruct (decide (bytes_IndexByte Buf SP < 0)) as [Hneg|Hpos].
    + exists []. split; [|simpl; lia].
      unfold method, lit. simpl. rewrite strings_Index_byte.
      by rewrite decide_True.
    + destruct (bytes_IndexByte_found Buf SP) as (m & r & -> & Hnin & _); [lia|].
      exists m. split; [by apply method_first_space|].
      rewrite length_app. lia.
  - destruct (decide (bytes_IndexByte Buf SP < 0)) as [Hneg|Hpos].
    + exists []. split; [|simpl; lia].
      unfold url, lit. simpl. rewrite strings_Index_byte.
      by rewrite decide_True.
    + destruct (bytes_IndexByte_found Buf SP) as (m & r & -> & Hnin & _); [lia|].
      destruct (decide (bytes_IndexByte r SP < 0)) as [Hneg'|Hpos'].
      * exists []. split; [|simpl; lia].
        rewrite url_rest by done. simpl. by rewrite decide_True.
      * destruct (bytes_IndexByte_found r SP) as (u & r' & -> & Hnin' & _); [lia|].
        exists u. split; [by apply url_two_spaces|].
        rewrite !length_app. simpl. rewrite length_app. lia.
Qed.

(** ** The name of a dead pid *)

Lemma cstr_first_NUL (m r : bytes) : NUL ∉ m → cstr (m ++ NUL :: r) = Some m.
Proof.
  intros Hnin. unfold cstr. rewrite bytes_IndexByte_first by done.
  pose proof (len_nonneg m). rewrite decide_False by lia.
  apply slice_to_app.
Qed.

Lemma cstr_no_NUL (chars : bytes) : NUL ∉ chars → cstr chars = Some chars.
Proof.
  intros Hnin. unfold cstr. rewrite bytes_IndexByte_absent by done.
  rewrite decide_True by lia. apply slice_to_all.
Qed.

Lemma cstr_total (chars : bytes) : is_Some (cstr chars).
Proof.
  destruct (decide (bytes_IndexByte chars NUL < 0)) as [Hneg|Hpos].
  - unfold cstr. rewrite decide_True by done. rewrite slice_to_all. done.
  - destruct (bytes_IndexByte_found chars NUL) as (m & r & -> & Hnin & _); [lia|].
    rewrite cstr_first_NUL by done. done.
Qed.

(** ** The cache keeps the most recently used keys *)

Section lru_facts.
Context {K V : Type} `{EqDecision K}.
Implicit Types (c : list (K * V)) (l : list K) (k : K).

Lemma lru_find_None k c : lru_find k c = None ↔ k ∉ lru_Keys c.
Proof.
  unfold lru_Keys. induction c as [|[k' v] c IH]; simpl.
  - split; [intros _; apply not_elem_of_nil | done].
  - rewrite not_elem_of_cons. destruct (decide (k' = k)) as [->|Hne].
    + split; [done | intros [? _]; done].
    + rewrite IH. split; [intros ?; split; [congruence | done] | intros [_ ?]; done].
Qed.

Lemma lru_find_Some k c v : lru_find k c = Some v → k ∈ lru_Keys c.
Proof.
  intros Hfind. destruct (decide (k ∈ lru_Keys c)) as [|Hnin]; [done|].
  apply lru_find_None in Hnin. congruence.
Qed.

Lemma lru_Keys_remove k c :
  lru_Keys (lru_remove k c) = filter (λ k', k' ≠ k) (lru_Keys c).
Proof.
  unfold lru_Keys, lru_remove. induction c as [|[k' v] c IH]; [done|].
  rewrite fmap_cons. rewrite !filter_cons. cbn [fst].
  destruct (decide (k' ≠ k)); [|done].
  rewrite fmap_cons. cbn [fst]. by rewrite IH.
Qed.

Lemma filter_ne_absent k l : k ∉ l → filter (λ k', k' ≠ k) l = l.
Proof.
  induction l as [|x l IH]; [done|].
  intros [Hne Hnin]%not_elem_of_cons.
  rewrite filter_cons. rewrite decide_True by congruence. by rewrite IH.
Qed.

Lemma take_filter_absent k l m :
  k ∉ take m l → take m (filter (λ k', k' ≠ k) l) = take m l.
Proof.
  revert m. induction l as [|x l IH]; intros m; [done|].
  destruct m as [|m]; [by rewrite !take_0|].
  simpl. intros [Hne Hnin]%not_elem_of_cons.
  rewrite filter_cons. rewrite decide_True by congruence.
  simpl. by rewrite IH.
Qed.

Lemma take_filter_present k l m :
  NoDup l → k ∈ take (S m) l →
  take m (filter (λ k', k' ≠ k) l) = filter (λ k', k' ≠ k) (take (S m) l).
Proof.
  revert m. induction l as [|x l IH]; intros m Hnd Hin.
  { simpl in Hin. by apply elem_of_nil in Hin. }
  apply NoDup_cons in Hnd as [Hx Hnd]. simpl in Hin. simpl.
  rewrite !filter_cons. destruct (decide (x ≠ k)) as [Hne|Heq].
  - apply elem_of_cons in Hin as [->|Hin]; [done|].
    destruct m as [|m]; [by rewrite take_0 in Hin; apply elem_of_nil in Hin|].
    simpl. by rewrite IH.
  - assert (x = k) as -> by (by destruct (decide (x = k))).
    rewrite !filter_ne_absent; [done | | done].
    intros Hin'. apply Hx. by apply (subseteq_take m l).
Qed.

Lemma removelast_cons_take {A} (x : A) (l : list A) :
  removelast (x :: l) = take (length l) (x :: l).
Proof.
  revert x. induction l as [|y l IH]; intros x; [done|].
  change (removelast (x :: y :: l)) with (x :: removelast (y :: l)).
  rewrite IH. done.
Qed.

(** One use of key [k], by [Get] on a hit or by [Add], takes a cache that
    holds the first [S n] keys of an order of use to the first [S n] keys of
    that order after [k] was used. *)
Lemma lru_promote_keys k v c l n :
  NoDup l → lru_Keys c = take (S n) l → k ∈ lru_Keys c →
  lru_Keys ((k, v) :: lru_remove k c) = take (S n) (k :: filter (λ k', k' ≠ k) l).
Proof.
  intros Hnd Hc Hin. change (lru_Keys ((k, v) :: ?c')) with (k :: lru_Keys c').
  rewrite lru_Keys_remove, Hc. simpl. f_equal.
  rewrite Hc in Hin. by rewrite take_filter_present.
Qed.

Lemma lru_push_keys k v c l n :
  lru_Keys c = take (S n) l → k ∉ lru_Keys c →
  lru_Keys (if decide (S n < length ((k, v) :: c))%nat
            then removelast ((k, v) :: c) else (k, v) :: c)
  = take (S n) (k :: filter (λ k', k' ≠ k) l).
Proof.
  intros Hc Hnin.
  assert (length c = length (lru_Keys c)) as Hlen
    by (unfold lru_Keys; by rewrite length_fmap).
  assert (k ∉ take n l) as Hnin'.
  { intros Hin. apply Hnin. rewrite Hc.
    apply elem_of_take in Hin as (i & Hi & Hlt).
    apply elem_of_take. exists i. split; [done | lia]. }
  simpl take. rewrite take_filter_absent by done.
  case_decide as Hfull.
  - rewrite removelast_cons_take.
    unfold lru_Keys. rewrite fmap_take. fold (lru_Keys ((k, v) :: c)).
    change (lru_Keys ((k, v) :: c)) with (k :: lru_Keys c).
    simpl in Hfull. rewrite Hlen, Hc, length_take in Hfull.
    assert (length c = S n) as -> by (rewrite Hlen, Hc, length_take; lia).
    simpl. f_equal. rewrite Hc. rewrite take_take. f_equal. lia.
  - change (lru_Keys ((k, v) :: c)) with (k :: lru_Keys c). f_equal.
    simpl in Hfull. rewrite Hlen, Hc, length_take in Hfull.
    rewrite Hc. rewrite !take_ge; [done | lia | lia].
Qed.

End lru_facts.

Lemma touch_NoDup (pid : N) (order : list N) : NoDup order → NoDup (touch pid order).
Proof.
  intros Hnd. unfold touch. apply NoDup_cons. split.
  - rewrite list_elem_of_filter. intros [? _]. done.
  - by apply NoDup_filter.
Qed.

Lemma recency_snoc (pids : list N) (pid : N) :
  recency (pids ++ [pid]) = touch pid (recency pids).
Proof. unfold recency. by rewrite foldl_app. Qed.

Lemma recency_NoDup (pids : list N) : NoDup (recency pids).
Proof.
  induction pids as [|pid pids IH] using rev_ind.
  - apply NoDup_nil_2.
  - rewrite recency_snoc. by apply touch_NoDup.
Qed.

(** ** Paths and snapshot worlds *)

Lemma string_app_cons (c : ascii) (s t : string) :
  String c s +:+ t = String c (s +:+ t).
Proof. reflexivity. Qed.

Lemma string_length_app (s t : string) :
  String.length (s +:+ t) = (String.length s + String.length t)%nat.
Proof.
  induction s as [|c s IH]; [done|].
  rewrite string_app_cons. simpl. by rewrite IH.
Qed.

Lemma string_app_inj_r (t s1 s2 : string) : s1 +:+ t = s2 +:+ t → s1 = s2.
Proof.
  revert s2. induction s1 as [|c1 s1 IH]; intros [|c2 s2] Heq.
  - done.
  - apply (f_equal String.length) in Heq.
    rewrite !string_length_app in Heq. simpl in Heq. lia.
  - apply (f_equal String.length) in Heq.
    rewrite !string_length_app in Heq. simpl in Heq. lia.
  - rewrite !string_app_cons in Heq. injection Heq as -> Heq.
    f_equal. by apply IH.
Qed.

Lemma procPath_inj (pid pid' : N) : procPath pid = procPath pid' → pid = pid'.
Proof.
  unfold procPath. intros Heq.
  apply (inj (String.append "/proc")), (inj (String.append "/")) in Heq.
  apply string_app_inj_r in Heq. by apply (inj pretty) in Heq.
Qed.

Lemma comm_file_procPath (live : gmap N bytes) (pid : N) :
  comm_file live (procPath pid) = live !! pid.
Proof.
  unfold comm_file.
  destruct (list_find _ (map_to_list live)) as [[i [k v]]|] eqn:Hfind; simpl.
  - apply list_find_Some in Hfind as (Hi & Hk & _). simpl in Hk.
    apply procPath_inj in Hk as ->.
    apply list_elem_of_lookup_2, elem_of_map_to_list in Hi. done.
  - destruct (live !! pid) as [v|] eqn:Hlive; [|done].
    apply elem_of_map_to_list in Hlive.
    apply list_find_None in Hfind. rewrite Forall_forall in Hfind.
    by destruct (Hfind _ Hlive).
Qed.

Lemma snapshot_world_Stat (live dead : gmap N bytes) (pid : N) :
  os_IsNotExist (os_Stat (snapshot_world live dead) (procPath pid))
  = bool_decide (live !! pid = None).
Proof.
  simpl. rewrite comm_file_procPath. by destruct (live !! pid).
Qed.

(** ** Running the resolver *)

(** Exposes the state passing behind the monad's notation. *)
Ltac run_M := unfold mbind, mret, M_bind, M_ret.

Section resolver.
Context {lib : GoLib} {layout : Layout}.

Lemma commNameOfDeadPid_run (w : World) (pid : N) (s : State) :
  commNameOfDeadPid w pid s = Some (dead_name w pid, logged s [IoDeadPidsLookup pid]).
Proof.
  unfold commNameOfDeadPid, DeadPids_Lookup, dead_name, logged.
  run_M. unfold io. simpl.
  destruct (DeadPids w !! pid) as [v|]; [|done].
  destruct (decide (length v = 16%nat)); [|done].
  unfold lift. destruct (cstr_total v) as [n ->]. done.
Qed.

Lemma commName_run (w : World) (pid : N) (s : State) :
  commName w pid s = Some (commName_value w pid, logged s (commName_io w pid)).
Proof.
  unfold commName, commName_value, commName_io.
  run_M. cbn [io].
  destruct (os_IsNotExist (os_Stat w (procPath pid))).
  - rewrite commNameOfDeadPid_run. unfold logged. simpl.
    by rewrite <- app_assoc.
  - destruct (os_ReadFile w (procPath pid)) as [name [e|]]; simpl.
    + rewrite commNameOfDeadPid_run. unfold logged. simpl.
      by rewrite <- !app_assoc.
    + unfold logged. simpl. by rewrite <- !app_assoc.
Qed.

Lemma serviceName_run (w : World) (pid : N) (s : State) :
  serviceName w pid s =
    match lru_find pid (activePids s) with
    | Some cached =>
        Some (cached, mkState ((pid, cached) :: lru_remove pid (activePids s)) (io_log s))
    | None =>
        Some (commName_value w pid,
              mkState (lru_Add activePids_size pid (commName_value w pid) (activePids s)).2
                      (io_log s ++ commName_io w pid))
    end.
Proof.
  unfold serviceName, activePids_Get, activePids_Add, lru_Get. run_M.
  destruct (lru_find pid (activePids s)) as [cached|] eqn:Hfind; [done|].
  rewrite commName_run. unfold logged. simpl.
  destruct (lru_Add activePids_size pid (commName_value w pid) (activePids s)). done.
Qed.

(** When the file is there and reading it fails, the map of dead pids is
    consulted and its answer dropped: the name is what was read of the file. *)
Lemma commName_read_failure (w : World) (pid : N) (s : State) (e : error) :
  os_IsNotExist (os_Stat w (procPath pid)) = false →
  (os_ReadFile w (procPath pid)).2 = Some e →
  commName w pid s =
    Some (strings_TrimSpace (os_ReadFile w (procPath pid)).1,
          logged s [IoStat (procPath pid); IoReadFile (procPath pid);
                    IoDeadPidsLookup pid]).
Proof.
  intros Hstat Hread. rewrite commName_run.
  unfold commName_value, commName_io. rewrite Hstat, Hread. done.
Qed.

Lemma lru_Add_head (pid : N) (name : bytes) (c : list (N * bytes)) :
  ∃ c', (lru_Add activePids_size pid name c).2 = (pid, name) :: c'.
Proof.
  unfold lru_Add. destruct (lru_find pid c); [by eexists|].
  cbn zeta. case_decide as Hfull; [|by eexists].
  destruct c as [|e c]; [simpl in Hfull; unfold activePids_size in Hfull; lia|].
  exists (removelast (e :: c)). done.
Qed.

Lemma lru_find_head (pid : N) (name : bytes) (c : list (N * bytes)) :
  lru_find pid ((pid, name) :: c) = Some name.
Proof. simpl. by rewrite decide_True. Qed.

(** In a snapshot world the name of a pid is read off the two tables. *)
Lemma commName_value_snapshot (live dead : gmap N bytes) (pid : N) :
  commName_value (snapshot_world live dead) pid =
    match live !! pid with
    | Some content => strings_TrimSpace content
    | None =>
        match dead !! pid with
        | Some snap => if decide (length snap = 16%nat) then default [] (cstr snap) else []
        | None => []
        end
    end.
Proof.
  unfold commName_value. rewrite snapshot_world_Stat.
  unfold dead_name. simpl. rewrite comm_file_procPath.
  by destruct (live !! pid).
Qed.

Lemma serviceName_snapshot (live dead : gmap N bytes) (pid : N) (s : State) :
  lru_find pid (activePids s) = None →
  live !! pid = None → dead !! pid = None →
  ∃ s', serviceName (snapshot_world live dead) pid s = Some ([], s').
Proof.
  intros Hmiss Hlive Hdead. rewrite serviceName_run, Hmiss.
  rewrite commName_value_snapshot, Hlive, Hdead. eauto.
Qed.

(** X2. For a pid that is not in the cache and whose [comm] file is there
    and is read without error, [serviceName] returns the content of the file
    with [strings.TrimSpace] applied, after one [os.Stat] and one
    [os.ReadFile] and no lookup in the map of dead pids. *)
Theorem serviceName_live_pid (w : World) (pid : N) (s : State) (content : bytes) :
  lru_find pid (activePids s) = None →
  os_IsNotExist (os_Stat w (procPath pid)) = false →
  os_ReadFile w (procPath pid) = (content, None) →
  ∃ s',
    serviceName w pid s = Some (strings_TrimSpace content, s') ∧
    io_log s' = io_log s ++ [IoStat (procPath pid); IoReadFile (procPath pid)] ∧
    lru_find pid (activePids s') = Some (strings_TrimSpace content).
Proof.
  intros Hmiss Hstat Hread. rewrite serviceName_run, Hmiss.
  unfold commName_value, commName_io. rewrite Hstat, Hread. simpl.
  eexists. split_and!; [done | done |]. simpl.
  destruct (lru_Add_head pid (strings_TrimSpace content) (activePids s)) as [c' ->].
  apply lru_find_head.
Qed.

Lemma serviceName_total (w : World) (pid : N) (s : State) :
  ∃ name s', serviceName w pid s = Some (name, s').
Proof.
  rewrite serviceName_run. destruct (lru_find pid (activePids s)); eauto.
Qed.

(** C3, as the code has it. [serviceName] returns a name from every state and
    in every world: it cannot panic and has no error result.  When the pid is
    not in the cache, the existence check on its proc entry says that it does
    not exist, and the map of dead pids has no entry for it, the name is the
    empty string.  When the pid is in the cache, the name is the cached one,
    whatever the world holds for the pid, and no call is made to the proc
    filesystem or to the map of dead pids. *)
Theorem serviceName_total_unknown_pid (w : World) (pid : N) (s : State) :
  (∃ name s', serviceName w pid s = Some (name, s')) ∧
  (lru_find pid (activePids s) = None →
   os_IsNotExist (os_Stat w (procPath pid)) = true →
   DeadPids w !! pid = None →
   ∃ s', serviceName w pid s = Some ([], s')) ∧
  (∀ cached, lru_find pid (activePids s) = Some cached →
   ∃ s', serviceName w pid s = Some (cached, s') ∧ io_log s' = io_log s).
Proof.
  split_and!.
  - apply serviceName_total.
  - intros Hmiss Hstat Hdead. rewrite serviceName_run, Hmiss.
    unfold commName_value, dead_name. rewrite Hstat, Hdead. eauto.
  - intros cached Hhit. rewrite serviceName_run, Hhit. eauto.
Qed.

(** C4, as the code has it. For a pid that is not in the cache, whose proc
    entry the existence check reports missing, and that has a 16-byte
    snapshot in the map of dead pids, [serviceName] returns the bytes of the
    snapshot that stand before its first zero byte (all 16 when it has none),
    whatever they are, and caches them. *)
Theorem serviceName_dead_pid (w : World) (pid : N) (s : State) (snap : bytes) :
  lru_find pid (activePids s) = None →
  os_IsNotExist (os_Stat w (procPath pid)) = true →
  DeadPids w !! pid = Some snap →
  length snap = 16%nat →
  ∃ name s',
    serviceName w pid s = Some (name, s') ∧
    cstr snap = Some name ∧
    (∀ m r, snap = m ++ NUL :: r → NUL ∉ m → name = m) ∧
    (NUL ∉ snap → name = snap) ∧
    lru_find pid (activePids s') = Some name.
Proof.
  intros Hmiss Hstat Hdead Hlen. rewrite serviceName_run, Hmiss.
  unfold commName_value, dead_name. rewrite Hstat, Hdead.
  rewrite decide_True by done.
  destruct (cstr_total snap) as [name Hname]. rewrite Hname. simpl.
  eexists _, _. split_and!; [done | done | | |].
  - intros m r -> Hnin. rewrite cstr_first_NUL in Hname by done. congruence.
  - intros Hnin. rewrite cstr_no_NUL in Hname by done. congruence.
  - simpl. destruct (lru_Add_head pid name (activePids s)) as [c' ->].
    apply lru_find_head.
Qed.

(** C5. In every state and world, [serviceName] leaves the name it returns in
    the cache under the pid; the next [serviceName] of that pid, in whatever
    world, returns the same name and makes no call to the proc filesystem or
    to the map of dead pids.  After a miss the name cached is the one the two
    sources gave, the empty string included, and the calls of the first
    resolve are the ones [commName] makes. *)
Theorem serviceName_twice (w1 w2 : World) (pid : N) (s : State) :
  ∃ name s1 s2,
    serviceName w1 pid s = Some (name, s1) ∧
    lru_find pid (activePids s1) = Some name ∧
    serviceName w2 pid s1 = Some (name, s2) ∧
    io_log s2 = io_log s1 ∧
    (lru_find pid (activePids s) = None →
     name = commName_value w1 pid ∧
     io_log s1 = io_log s ++ commName_io w1 pid ∧
     commName_io w1 pid ≠ []).
Proof.
  rewrite serviceName_run.
  destruct (lru_find pid (activePids s)) as [cached|] eqn:Hfind.
  - eexists _, _, _. split; [done|]. split; [apply lru_find_head|].
    rewrite serviceName_run. cbn [activePids]. rewrite lru_find_head.
    split_and!; done.
  - destruct (lru_Add_head pid (commName_value w1 pid) (activePids s)) as [c' Hc'].
    eexists _, _, _. split; [done|]. cbn [activePids io_log]. rewrite Hc'.
    split; [apply lru_find_head|].
    rewrite serviceName_run. cbn [activePids io_log]. rewrite lru_find_head.
    split_and!; done.
Qed.

(** The keys of the cache follow the order of use. *)
Lemma serviceName_keys (w : World) (pid : N) (s : State) (used : list N) :
  lru_Keys (activePids s) = take 64 (recency used) →
  ∃ name s',
    serviceName w pid s = Some (name, s') ∧
    lru_Keys (activePids s') = take 64 (recency (used ++ [pid])).
Proof.
  intros Hkeys. rewrite serviceName_run, recency_snoc. unfold touch.
  pose proof (recency_NoDup used) as Hnd.
  destruct (lru_find pid (activePids s)) as [cached|] eqn:Hfind.
  - eexists _, _. split; [done|]. cbn [activePids].
    apply lru_promote_keys; [done | done | by eapply lru_find_Some].
  - eexists _, _. split; [done|]. cbn [activePids].
    unfold lru_Add. rewrite Hfind. cbn zeta.
    rewrite <- (lru_push_keys pid (commName_value w pid) (activePids s) (recency used) 63);
      [| done | by apply lru_find_None].
    unfold activePids_size. by destruct (decide _).
Qed.

Lemma resolve_all_keys (calls : list (World * N)) (s : State) (used : list N) :
  lru_Keys (activePids s) = take 64 (recency used) →
  ∃ names s',
    resolve_all calls s = Some (names, s') ∧
    lru_Keys (activePids s') = take 64 (recency (used ++ calls.*2)).
Proof.
  revert s used. induction calls as [|[w pid] calls IH]; intros s used Hkeys.
  - exists [], s. split; [done|]. by rewrite app_nil_r.
  - destruct (serviceName_keys w pid s used Hkeys) as (name & s1 & Hrun & Hkeys1).
    destruct (IH s1 (used ++ [pid]) Hkeys1) as (names & s2 & Hruns & Hkeys2).
    exists (name :: names), s2. split.
    + cbn [resolve_all]. run_M. rewrite Hrun, Hruns. done.
    + rewrite Hkeys2, <- app_assoc. done.
Qed.

(** What one resolve does to the keys of the cache. *)
Lemma serviceName_eviction (w : World) (pid : N) (s : State) :
  NoDup (lru_Keys (activePids s)) →
  ∃ name s',
    serviceName w pid s = Some (name, s') ∧
    (pid ∈ lru_Keys (activePids s) →
       lru_Keys (activePids s') =
         pid :: filter (λ k, k ≠ pid) (lru_Keys (activePids s))) ∧
    (pid ∉ lru_Keys (activePids s) → (length (activePids s) < 64)%nat →
       lru_Keys (activePids s') = pid :: lru_Keys (activePids s)) ∧
    (pid ∉ lru_Keys (activePids s) → length (activePids s) = 64%nat →
       ∃ kept oldest,
         lru_Keys (activePids s) = kept ++ [oldest] ∧
         lru_Keys (activePids s') = pid :: kept ∧
         oldest ∉ lru_Keys (activePids s')).
Proof.
  intros Hnd. rewrite serviceName_run.
  destruct (lru_find pid (activePids s)) as [cached|] eqn:Hfind.
  - apply lru_find_Some in Hfind.
    eexists _, _. split; [done|]. cbn [activePids]. split_and!; try done.
    intros _. change (lru_Keys ((pid, cached) :: ?c)) with (pid :: lru_Keys c).
    by rewrite lru_Keys_remove.
  - apply lru_find_None in Hfind as Hnin.
    eexists _, _. split; [done|]. cbn [activePids].
    unfold lru_Add. rewrite Hfind. cbn zeta. unfold activePids_size.
    split_and!; try done.
    + intros _ Hlt. rewrite decide_False by (simpl; lia). done.
    + intros _ Hlen. rewrite decide_True by (simpl; lia). cbn [snd].
      destruct (exists_last (l := activePids s)) as (c0 & [k v] & Hc).
      { intros Hnil. rewrite Hnil in Hlen. discriminate. }
      exists (lru_Keys c0), k. rewrite Hc in Hnd, Hnin |- *.
      unfold lru_Keys in Hnd, Hnin |- *. rewrite fmap_app in Hnd, Hnin |- *.
      cbn [fmap list_fmap fst] in Hnd, Hnin |- *.
      rewrite app_comm_cons, removelast_last. cbn [fmap list_fmap fst].
      split_and!; [done | done |].
      apply NoDup_app in Hnd as (_ & Hdisj & _).
      rewrite not_elem_of_cons. split.
      * intros ->. apply Hnin. apply elem_of_app. right. apply list_elem_of_here.
      * intros Hin. apply (Hdisj k Hin). apply list_elem_of_here.
Qed.

(** C6. After any sequence of resolves from the start of the program the
    cache holds at most 64 pids, all distinct: the 64 most recently used ones
    in the order of their last use.  From such a state, a resolve of a cached
    pid and a resolve below capacity evict nothing; a resolve of a new pid at
    capacity removes the one entry at the end of the order of use and no
    other.  Nothing but a resolve changes the cache: its state has no clock. *)
Theorem activePids_bounded_lru (calls : list (World * N)) :
  ∃ names s,
    resolve_all calls init_state = Some (names, s) ∧
    (length (activePids s) ≤ 64)%nat ∧
    NoDup (lru_Keys (activePids s)) ∧
    lru_Keys (activePids s) = take 64 (recency (calls.*2)) ∧
    ∀ w pid, ∃ name s',
      serviceName w pid s = Some (name, s') ∧
      (pid ∈ lru_Keys (activePids s) → ∀ k,
         k ∈ lru_Keys (activePids s) → k ∈ lru_Keys (activePids s')) ∧
      (pid ∉ lru_Keys (activePids s) → (length (activePids s) < 64)%nat →
         lru_Keys (activePids s') = pid :: lru_Keys (activePids s)) ∧
      (pid ∉ lru_Keys (activePids s) → length (activePids s) = 64%nat →
         ∃ kept oldest,
           lru_Keys (activePids s) = kept ++ [oldest] ∧
           lru_Keys (activePids s') = pid :: kept ∧
           oldest ∉ lru_Keys (activePids s')) ∧
      (∀ k, k ∈ lru_Keys (activePids s) → k ∉ lru_Keys (activePids s') →
         (pid ∉ lru_Keys (activePids s)) ∧ length (activePids s) = 64%nat ∧
         last (lru_Keys (activePids s)) = Some k).
Proof.
  destruct (resolve_all_keys calls init_state []) as (names & s & Hrun & Hkeys);
    [done|].
  rewrite app_nil_l in Hkeys.
  assert (NoDup (lru_Keys (activePids s))) as Hnd.
  { rewrite Hkeys. eapply sublist_NoDup; [apply recency_NoDup|].
    apply sublist_take. }
  assert (length (activePids s) ≤ 64)%nat as Hbound.
  { replace (length (activePids s)) with (length (lru_Keys (activePids s)))
      by (unfold lru_Keys; by rewrite length_fmap).
    rewrite Hkeys, length_take. lia. }
  exists names, s. split_and!; [done | done | done | done |].
  intros w pid.
  destruct (serviceName_eviction w pid s Hnd) as (name & s' & Hstep & Hhit & Hlow & Hfull).
  assert (pid ∈ lru_Keys (activePids s) → ∀ k,
    k ∈ lru_Keys (activePids s) → k ∈ lru_Keys (activePids s')) as Hkeep.
  { intros Hin k Hk. rewrite (Hhit Hin).
    destruct (decide (k = pid)) as [->|Hne].
    - apply list_elem_of_here.
    - apply list_elem_of_further. by apply list_elem_of_filter. }
  exists name, s'. split_and!; [done | done | done | done |].
  intros k Hk Hgone.
  destruct (decide (pid ∈ lru_Keys (activePids s))) as [Hin|Hnin].
  { destruct Hgone. by apply Hkeep. }
  destruct (decide (length (activePids s) = 64%nat)) as [Hlen|Hlen].
  - destruct (Hfull Hnin Hlen) as (kept & oldest & Hs & Hs' & _).
    split_and!; [done | done |].
    rewrite Hs, last_snoc. f_equal.
    rewrite Hs in Hk. rewrite Hs' in Hgone.
    apply elem_of_app in Hk as [Hk|Hk].
    + destruct Hgone. by apply list_elem_of_further.
    + by apply list_elem_of_singleton in Hk.
  - destruct Hgone. rewrite Hlow; [| done | lia]. by apply list_elem_of_further.
Qed.

End resolver.

(** ** The decoder *)

Section decoder.
Context {lib : GoLib} {layout : Layout}.

Lemma binary_Read_short (raw : bytes) (event : BPFHTTPInfo) :
  (length raw < dataSize)%nat →
  binary_Read raw event =
    (event, Some (if decide (raw = []) then io_EOF else io_ErrUnexpectedEOF)).
Proof.
  intros Hlt. unfold binary_Read, io_ReadFull.
  rewrite decide_False by lia.
  destruct raw as [|b raw]; [done|].
  rewrite decide_False by done. rewrite decide_False by done. done.
Qed.

Lemma binary_Read_enough (raw : bytes) (event : BPFHTTPInfo) :
  (dataSize ≤ length raw)%nat →
  ∃ decoded,
    binary_Read raw event = (decoded, None) ∧
    S_addr (ConnInfo decoded) = take 16 raw ∧
    D_addr (ConnInfo decoded) = take 16 (drop 16 raw) ∧
    Pid decoded = LittleEndian_Uint32 (take 4 (drop 32 raw)) ∧
    Buf decoded = take BUF_SIZE (drop 36 raw).
Proof.
  intros Hle. unfold binary_Read, io_ReadFull.
  rewrite decide_True by done. eexists. split; [done|]. cbn.
  unfold dataSize.
  rewrite take_take, !take_drop_commute, !take_take.
  split_and!; repeat f_equal; lia.
Qed.

Lemma copy_same_length (dst src : bytes) :
  length src = length dst → copy dst src = src.
Proof.
  intros Hlen. unfold copy. rewrite Hlen, drop_all, app_nil_r.
  rewrite <- Hlen. apply firstn_all.
Qed.

Lemma hostInfo_addresses (event : BPFHTTPInfo) :
  length (S_addr (ConnInfo event)) = 16%nat →
  length (D_addr (ConnInfo event)) = 16%nat →
  hostInfo event =
    (net_IP_String (S_addr (ConnInfo event)), net_IP_String (D_addr (ConnInfo event))).
Proof.
  intros Hs Hd. unfold hostInfo, IPv6len.
  rewrite !copy_same_length; [done | |]; by rewrite length_replicate.
Qed.

(** C1. [toRequestTrace] returns a record and no error exactly when the
    sample has at least the size of the raw record; the record then carries
    the decoded fields, the two addresses rendered, and the method and URL
    extracted from its buffer.  On a shorter sample it returns an error
    ([io.EOF] for the empty sample, [io.ErrUnexpectedEOF] otherwise) beside
    the zero [HTTPInfo], which holds no byte of the sample, and it leaves the
    cache and the outside untouched. *)
Theorem toRequestTrace_size (p : Tracer) (w : World) (raw : bytes) (s : State) :
  ((dataSize ≤ length raw)%nat →
     ∃ result s',
       toRequestTrace p w raw s = Some ((result, None), s') ∧
       Buf (Event result) = take BUF_SIZE (drop 36 raw) ∧
       Pid (Event result) = LittleEndian_Uint32 (take 4 (drop 32 raw)) ∧
       method (Buf (Event result)) = Some (Method result) ∧
       url (Buf (Event result)) = Some (URL result) ∧
       Peer result = net_IP_String (take 16 raw) ∧
       Host result = net_IP_String (take 16 (drop 16 raw)) ∧
       (SystemWide (Cfg p) = false → Comm result = [] ∧ s' = s)) ∧
  ((length raw < dataSize)%nat →
     toRequestTrace p w raw s =
       Some ((zero_HTTPInfo,
              Some (if decide (raw = []) then io_EOF else io_ErrUnexpectedEOF)), s)) ∧
  ((∃ result s', toRequestTrace p w raw s = Some ((result, None), s')) ↔
   (dataSize ≤ length raw)%nat).
Proof.
  assert ((dataSize ≤ length raw)%nat →
     ∃ result s',
       toRequestTrace p w raw s = Some ((result, None), s') ∧
       Buf (Event result) = take BUF_SIZE (drop 36 raw) ∧
       Pid (Event result) = LittleEndian_Uint32 (take 4 (drop 32 raw)) ∧
       method (Buf (Event result)) = Some (Method result) ∧
       url (Buf (Event result)) = Some (URL result) ∧
       Peer result = net_IP_String (take 16 raw) ∧
       Host result = net_IP_String (take 16 (drop 16 raw)) ∧
       (SystemWide (Cfg p) = false → Comm result = [] ∧ s' = s)) as Hok.
  { intros Hle. unfold toRequestTrace.
    destruct (binary_Read_enough raw zero_BPFHTTPInfo Hle)
      as (event & -> & Hsrc & Hdst & Hpid & Hbuf).
    unfold dataSize in Hle.
    rewrite hostInfo_addresses;
      [ rewrite Hsrc, Hdst
      | rewrite Hsrc, length_take; lia
      | rewrite Hdst, length_take, length_drop; lia ].
    destruct (url_total (Buf event)) as [u Hu].
    destruct (method_total (Buf event)) as [m Hm].
    run_M. unfold lift. rewrite Hu, Hm.
    destruct (SystemWide (Cfg p)).
    - destruct (serviceName_total w (Pid event) s) as (name & s' & ->).
      eexists _, _. split; [done|]. done.
    - eexists _, _. split; [done|]. done. }
  assert ((length raw < dataSize)%nat →
     toRequestTrace p w raw s =
       Some ((zero_HTTPInfo,
              Some (if decide (raw = []) then io_EOF else io_ErrUnexpectedEOF)), s))
    as Hshort.
  { intros Hlt. unfold toRequestTrace. rewrite binary_Read_short by done. done. }
  split_and!; [done | done |]. split.
  - intros (result & s' & Hrun).
    destruct (decide (dataSize ≤ length raw)%nat) as [|Hlt]; [done|].
    rewrite Hshort in Hrun by lia. discriminate.
  - intros Hle. destruct (Hok Hle) as (result & s' & Hrun & _). eauto.
Qed.

End decoder.

(** ** Constants and probes *)

(** C7. In system-wide mode [Constants] returns the [nil] map.  Otherwise it
    returns a map whose keys are exactly [current_pid] and
    [current_pid_ns_id]: the first holds the pid of the target, the second
    whatever id [findNamespace] returned, also when it returned an error;
    the error is logged as a warning and the map is returned all the same. *)
Theorem Constants_modes (p : Tracer) (w : World) (finfo : FileInfo) :
  (SystemWide (Cfg p) = true → Constants p w finfo = (None, [])) ∧
  (SystemWide (Cfg p) = false →
     ∃ m logged,
       Constants p w finfo = (Some m, logged) ∧
       dom m = ({[ "current_pid"; "current_pid_ns_id" ]} : gset string) ∧
       m !! "current_pid" = Some (Int32 (FileInfo_Pid finfo)) ∧
       m !! "current_pid_ns_id" =
         Some (Uint32 (findNamespace w (FileInfo_Pid finfo)).1) ∧
       (∀ e, (findNamespace w (FileInfo_Pid finfo)).2 = Some e →
          ∃ msg, logged = [Warn msg e]) ∧
       ((findNamespace w (FileInfo_Pid finfo)).2 = None → logged = [])).
Proof.
  unfold Constants. split.
  - intros ->. done.
  - intros ->. destruct (findNamespace w (FileInfo_Pid finfo)) as [npid err].
    eexists _, _. split; [done|]. split_and!.
    + rewrite dom_insert_L, dom_singleton_L. set_solver.
    + by rewrite lookup_insert_ne, lookup_singleton_eq.
    + by rewrite lookup_insert_eq.
    + simpl. intros e ->. by eexists.
    + simpl. intros ->. done.
Qed.

Lemma KProbes_base (p : Tracer) (name : string) :
  name ≠ "sys_exit" → name ≠ "sys_exit_group" →
  KProbes p !! name =
    (list_to_map [
      ("sys_accept", mkFunctionPrograms true None (KretprobeSysAccept4 (objects p)));
      ("sys_accept4", mkFunctionPrograms true None (KretprobeSysAccept4 (objects p)));
      ("sock_alloc", mkFunctionPrograms true None (KretprobeSockAlloc (objects p)));
      ("tcp_rcv_established",
        mkFunctionPrograms true (KprobeTcpRcvEstablished (objects p)) None);
      ("sys_connect", mkFunctionPrograms true None (KretprobeSysConnect (objects p)));
      ("tcp_connect", mkFunctionPrograms true (KprobeTcpConnect (objects p)) None)
    ] : gmap string FunctionPrograms) !! name.
Proof.
  intros Hne1 Hne2. unfold KProbes.
  destruct (SystemWide (Cfg p)); [|done].
  by rewrite !lookup_insert_ne.
Qed.

(** C8, as the code has it. In every mode the table declares [sys_accept] and
    [sys_accept4], both required and both bound to the one exit program
    [KretprobeSysAccept4] with no entry program, and [sock_alloc], required
    and bound to the exit program [KretprobeSockAlloc]. *)
Theorem KProbes_accept (p : Tracer) :
  KProbes p !! "sys_accept" =
    Some (mkFunctionPrograms true None (KretprobeSysAccept4 (objects p))) ∧
  KProbes p !! "sys_accept4" =
    Some (mkFunctionPrograms true None (KretprobeSysAccept4 (objects p))) ∧
  KProbes p !! "sock_alloc" =
    Some (mkFunctionPrograms true None (KretprobeSockAlloc (objects p))).
Proof.
  split_and!; by rewrite KProbes_base.
Qed.

(** C9. The table has the entries [sys_exit] and [sys_exit_group] exactly in
    system-wide mode; both are then required and bound to the entry program
    [KprobeSysExit].  Outside system-wide mode the names declared are the six
    of the accept, receive and connect paths. *)
Theorem KProbes_exit (p : Tracer) :
  (is_Some (KProbes p !! "sys_exit") ↔ SystemWide (Cfg p) = true) ∧
  (is_Some (KProbes p !! "sys_exit_group") ↔ SystemWide (Cfg p) = true) ∧
  (SystemWide (Cfg p) = true →
     KProbes p !! "sys_exit" =
       Some (mkFunctionPrograms true (KprobeSysExit (objects p)) None) ∧
     KProbes p !! "sys_exit_group" =
       Some (mkFunctionPrograms true (KprobeSysExit (objects p)) None)) ∧
  (SystemWide (Cfg p) = false →
     dom (KProbes p) =
       ({[ "sys_accept"; "sys_accept4"; "sock_alloc"; "tcp_rcv_established";
           "sys_connect"; "tcp_connect" ]} : gset string)).
Proof.
  unfold KProbes. destruct (SystemWide (Cfg p)).
  - split_and!.
    + split; [done|]. intros _. by rewrite lookup_insert_ne, lookup_insert_eq.
    + split; [done|]. intros _. by rewrite lookup_insert_eq.
    + intros _. split.
      * by rewrite lookup_insert_ne, lookup_insert_eq.
      * by rewrite lookup_insert_eq.
    + done.
  - split_and!.
    + split; [|done]. intros [fp Hfp]. by vm_compute in Hfp.
    + split; [|done]. intros [fp Hfp]. by vm_compute in Hfp.
    + done.
    + intros _. cbn [list_to_map foldr]. rewrite !dom_insert_L, dom_empty_L.
      set_solver.
Qed.

Example ascii_TrimSpace_comm :
  ascii_TrimSpace (lit "nginx" ++ [ascii_of_N 10]) = lit "nginx".
Proof. vm_compute. reflexivity. Qed.

Example IP_String_v4_mapped :
  IP_String (replicate 10 NUL ++ map ascii_of_N [255; 255; 192; 168; 0; 1]%N)
  = lit "192.168.0.1".
Proof. vm_compute. reflexivity. Qed.

Example IP_String_v6 :
  IP_String (map ascii_of_N [32; 1; 13; 184; 0; 0; 0; 0; 0; 0; 0; 0; 0; 0; 0; 1]%N)
  = lit "2001:db8::1".
Proof. vm_compute. reflexivity. Qed.

Example IP_String_v6_loopback :
  IP_String (replicate 15 NUL ++ [ascii_of_N 1]) = lit "::1".
Proof. vm_compute. reflexivity. Qed.

(** ** The theorems at concrete inputs *)

Section examples.
#[local] Existing Instance example_lib.
#[local] Existing Instance example_layout.

Example spec_trim_snapshot_sh : spec_trim_snapshot snapshot_sh = lit "sh".
Proof. vm_compute. reflexivity. Qed.

(** C2 at the buffer of the spec's example. *)
Lemma method_url_extraction_witness :
  method (lit "GET /foo HTTP/1.1" ++ [CR; LF] ++ replicate 141 NUL) = Some (lit "GET") ∧
  url (lit "GET /foo HTTP/1.1" ++ [CR; LF] ++ replicate 141 NUL) = Some (lit "/foo").
Proof.
  exact (proj2 (proj2 (method_url_extraction _)) ([CR; LF] ++ replicate 141 NUL) eq_refl).
Defined.

(** C10 at a buffer whose method and URL each hold a zero byte. *)
Lemma extraction_ignores_NUL_witness :
  method (lit "GE" ++ NUL :: lit "T" ++ SP :: lit "/a" ++ NUL :: lit "b" ++ SP :: lit "HTTP/1.1")
    = Some (lit "GE" ++ NUL :: lit "T") ∧
  url (lit "GE" ++ NUL :: lit "T" ++ SP :: lit "/a" ++ NUL :: lit "b" ++ SP :: lit "HTTP/1.1")
    = Some (lit "/a" ++ NUL :: lit "b").
Proof.
  pose proof (extraction_ignores_NUL (lit "GE") (lit "T") (lit "/a") (lit "b")
                (lit "HTTP/1.1")) as Hw.
  destruct Hw as (Hm & Hu & _); [compute_done..|].
  split; [exact Hm | exact Hu].
Defined.

(** C3 as stated fails on a warm cache: pid 7 is resolved while it runs
    [nginx]; afterwards it is in neither table, and the resolve still returns
    [nginx]. *)
Lemma serviceName_stale_cache_counterexample :
  os_IsNotExist (os_Stat world_empty (procPath 7)) = true ∧
  DeadPids world_empty !! 7%N = None ∧
  ∃ s1 s2,
    serviceName world_nginx_alive 7 init_state = Some (lit "nginx", s1) ∧
    serviceName world_empty 7 s1 = Some (lit "nginx", s2) ∧
    lit "nginx" ≠ [].
Proof.
  split_and!; [by vm_compute | by vm_compute |].
  eexists _, _. split_and!; [by vm_compute | by vm_compute | done].
Qed.

(** C3, as the code has it, at pid 7 in the empty world: with the empty
    cache, and with a cache that holds [nginx] for it. *)
Lemma serviceName_total_unknown_pid_witness :
  (∃ s', serviceName world_empty 7 init_state = Some ([], s')) ∧
  (∃ s', serviceName world_empty 7 (mkState [(7%N, lit "nginx")] [])
           = Some (lit "nginx", s') ∧
         io_log s' = []).
Proof.
  split.
  - apply (proj1 (proj2 (serviceName_total_unknown_pid world_empty 7 init_state)));
      by vm_compute.
  - apply (proj2 (proj2 (serviceName_total_unknown_pid world_empty 7
                           (mkState [(7%N, lit "nginx")] []))) (lit "nginx")).
    by vm_compute.
Defined.

(** C4 as stated fails on a snapshot with a trailing space: the code returns
    [sh] with the space, the snapshot with trailing padding and white space
    removed is [sh]. *)
Lemma serviceName_dead_pid_keeps_space_counterexample :
  os_IsNotExist (os_Stat world_sh_dead (procPath 9)) = true ∧
  DeadPids world_sh_dead !! 9%N = Some snapshot_sh ∧
  length snapshot_sh = 16%nat ∧
  (∃ s', serviceName world_sh_dead 9 init_state = Some (lit "sh ", s')) ∧
  spec_trim_snapshot snapshot_sh = lit "sh" ∧
  lit "sh " ≠ spec_trim_snapshot snapshot_sh.
Proof.
  split_and!; [by vm_compute | by vm_compute | done | | by vm_compute | by vm_compute].
  eexists. by vm_compute.
Qed.

(** C4, as the code has it, at that snapshot. *)
Lemma serviceName_dead_pid_witness :
  ∃ name s',
    serviceName world_sh_dead 9 init_state = Some (name, s') ∧
    cstr snapshot_sh = Some name ∧
    (∀ m r, snapshot_sh = m ++ NUL :: r → NUL ∉ m → name = m) ∧
    (NUL ∉ snapshot_sh → name = snapshot_sh) ∧
    lru_find 9%N (activePids s') = Some name.
Proof.
  apply (serviceName_dead_pid world_sh_dead 9 init_state snapshot_sh); by vm_compute.
Defined.

(** C1 at a full record in system-wide mode, and at the same sample cut
    short by one byte. *)
Example toRequestTrace_get_foo :
  ∃ s',
    toRequestTrace tracer_system_wide world_nginx_alive sample_get_foo init_state =
      Some ((mkHTTPInfo
               (mkBPFHTTPInfo
                  (mkBPFConnInfo (take 16 sample_get_foo) (take 16 (drop 16 sample_get_foo)))
                  7 (take 160 (drop 36 sample_get_foo)))
               (lit "GET") (lit "/foo") (lit "nginx") (lit "10.0.0.1") (lit "10.0.0.2"),
             None), s') ∧
    activePids s' = [(7%N, lit "nginx")].
Proof. eexists. split; by vm_compute. Qed.

Lemma toRequestTrace_size_witness :
  (∃ result s',
     toRequestTrace tracer_system_wide world_nginx_alive sample_get_foo init_state
       = Some ((result, None), s') ∧
     Buf (Event result) = take BUF_SIZE (drop 36 sample_get_foo) ∧
     Pid (Event result) = LittleEndian_Uint32 (take 4 (drop 32 sample_get_foo)) ∧
     method (Buf (Event result)) = Some (Method result) ∧
     url (Buf (Event result)) = Some (URL result) ∧
     Peer result = net_IP_String (take 16 sample_get_foo) ∧
     Host result = net_IP_String (take 16 (drop 16 sample_get_foo)) ∧
     (SystemWide (Cfg tracer_system_wide) = false → Comm result = [] ∧ s' = init_state)) ∧
  toRequestTrace tracer_system_wide world_nginx_alive (take 195 sample_get_foo) init_state
    = Some ((zero_HTTPInfo, Some io_ErrUnexpectedEOF), init_state).
Proof.
  split.
  - apply (proj1 (toRequestTrace_size tracer_system_wide world_nginx_alive
                    sample_get_foo init_state)).
    by vm_compute.
  - apply (proj1 (proj2 (toRequestTrace_size tracer_system_wide world_nginx_alive
                    (take 195 sample_get_foo) init_state))).
    vm_compute. lia.
Defined.

(** C5 at pid 7: resolved while it runs [nginx], then again after it is
    gone. *)
Lemma serviceName_twice_witness :
  ∃ name s1 s2,
    serviceName world_nginx_alive 7 init_state = Some (name, s1) ∧
    lru_find 7%N (activePids s1) = Some name ∧
    serviceName world_empty 7 s1 = Some (name, s2) ∧
    io_log s2 = io_log s1 ∧
    (lru_find 7%N (activePids init_state) = None →
     name = commName_value world_nginx_alive 7 ∧
     io_log s1 = io_log init_state ++ commName_io world_nginx_alive 7 ∧
     commName_io world_nginx_alive 7 ≠ []).
Proof. exact (serviceName_twice world_nginx_alive world_empty 7 init_state). Defined.

Example serviceName_twice_io :
  ∃ s1 s2,
    serviceName world_nginx_alive 7 init_state = Some (lit "nginx", s1) ∧
    io_log s1 = [IoStat "/proc/7/comm"; IoReadFile "/proc/7/comm"] ∧
    serviceName world_empty 7 s1 = Some (lit "nginx", s2) ∧
    io_log s2 = [IoStat "/proc/7/comm"; IoReadFile "/proc/7/comm"].
Proof. eexists _, _. split_and!; by vm_compute. Qed.

(** C6 at the pids 1 to 65 resolved in this order: the cache then holds 65
    down to 2, and pid 1, the least recently used, is gone. *)
Lemma activePids_bounded_lru_witness :
  ∃ names s,
    resolve_all calls_1_to_65 init_state = Some (names, s) ∧
    lru_Keys (activePids s) = map N.of_nat (reverse (seq 2 64)) ∧
    length (activePids s) = 64%nat ∧
    1%N ∉ lru_Keys (activePids s).
Proof.
  destruct (activePids_bounded_lru calls_1_to_65)
    as (names & s & Hrun & _ & _ & Hkeys & _).
  exists names, s.
  assert (lru_Keys (activePids s) = map N.of_nat (reverse (seq 2 64))) as Hk
    by (rewrite Hkeys; by vm_compute).
  split_and!; [exact Hrun | exact Hk | |].
  - replace (length (activePids s)) with (length (lru_Keys (activePids s)))
      by (unfold lru_Keys; by rewrite length_fmap).
    rewrite Hk. by vm_compute.
  - rewrite Hk. compute_done.
Defined.

Example resolve_1_to_65 :
  (λ r, lru_Keys (activePids r.2)) <$> resolve_all calls_1_to_65 init_state
  = Some (map N.of_nat (reverse (seq 2 64))).
Proof. by vm_compute. Qed.

(** C7 in single-target mode with a namespace lookup that fails. *)
Lemma Constants_modes_witness :
  Constants tracer_system_wide world_empty (mkFileInfo 7) = (None, []) ∧
  ∃ m logged,
    Constants tracer_single world_empty (mkFileInfo 7) = (Some m, logged) ∧
    dom m = ({[ "current_pid"; "current_pid_ns_id" ]} : gset string) ∧
    m !! "current_pid" = Some (Int32 7) ∧
    m !! "current_pid_ns_id" = Some (Uint32 0).
Proof.
  split.
  - apply (proj1 (Constants_modes tracer_system_wide world_empty (mkFileInfo 7))).
    reflexivity.
  - destruct (proj2 (Constants_modes tracer_single world_empty (mkFileInfo 7)) eq_refl)
      as (m & logged & Hrun & Hdom & Hpid & Hns & _).
    exists m, logged. split_and!; [exact Hrun | exact Hdom | exact Hpid | exact Hns].
Defined.

(** C8 as stated fails: with every program loaded, in either mode, the
    entries of [sys_accept] and [sys_accept4] have an exit program and no
    entry program to pair it with. *)
Lemma KProbes_accept_unpaired_counterexample :
  (∃ fp, KProbes tracer_single !! "sys_accept" = Some fp ∧
         Required fp = true ∧ ¬ paired_entry_exit fp) ∧
  (∃ fp, KProbes tracer_single !! "sys_accept4" = Some fp ∧
         Required fp = true ∧ ¬ paired_entry_exit fp) ∧
  (∃ fp, KProbes tracer_system_wide !! "sys_accept" = Some fp ∧
         Required fp = true ∧ ¬ paired_entry_exit fp) ∧
  (∃ fp, KProbes tracer_system_wide !! "sys_accept4" = Some fp ∧
         Required fp = true ∧ ¬ paired_entry_exit fp).
Proof.
  split_and!; eexists;
    (split_and!; [by vm_compute | done | by intros [[? ?] _]]).
Qed.

(** C9 at the two example tracers. *)
Lemma KProbes_exit_witness :
  (KProbes tracer_system_wide !! "sys_exit" =
     Some (mkFunctionPrograms true (Some 6%N) None) ∧
   KProbes tracer_system_wide !! "sys_exit_group" =
     Some (mkFunctionPrograms true (Some 6%N) None)) ∧
  dom (KProbes tracer_single) =
    ({[ "sys_accept"; "sys_accept4"; "sock_alloc"; "tcp_rcv_established";
        "sys_connect"; "tcp_connect" ]} : gset string).
Proof.
  split.
  - apply (proj1 (proj2 (proj2 (KProbes_exit tracer_system_wide)))). reflexivity.
  - apply (proj2 (proj2 (proj2 (KProbes_exit tracer_single)))). reflexivity.
Defined.

(** X1 at the buffer [GET], which has no space. *)
Lemma extraction_never_panics_witness :
  (∃ m, method (lit "GET") = Some m ∧ (length m ≤ 3)%nat) ∧
  (∃ u, url (lit "GET") = Some u ∧ (length u ≤ 3)%nat).
Proof. exact (extraction_never_panics (lit "GET")). Defined.

Example method_url_GET : method (lit "GET") = Some [] ∧ url (lit "GET") = Some [].
Proof. split; by vm_compute. Qed.

(** X2 at pid 7 while it runs [nginx]: the line feed that ends the file is
    trimmed. *)
Lemma serviceName_live_pid_witness :
  ∃ s',
    serviceName world_nginx_alive 7 init_state
      = Some (strings_TrimSpace (lit "nginx" ++ [LF]), s') ∧
    io_log s' = io_log init_state ++ [IoStat (procPath 7); IoReadFile (procPath 7)] ∧
    lru_find 7%N (activePids s') = Some (strings_TrimSpace (lit "nginx" ++ [LF])).
Proof.
  apply (serviceName_live_pid world_nginx_alive 7 init_state); by vm_compute.
Defined.

End examples.

Example KernelVersion_6_8 : KernelVersion uname_6_8 = (6, 8).
Proof. by vm_compute. Qed.

(** ** The kernel version *)

Lemma wrap_int_small (z : Z) : - 2 ^ 63 ≤ z < 2 ^ 63 → wrap_int z = z.
Proof. intros Hz. unfold wrap_int. rewrite Z.mod_small; lia. Qed.

Lemma KernelVersion_loop_digits (ds rest : bytes) (values : list Z) (value vi : Z) :
  Forall digit ds →
  KernelVersion_loop (ds ++ rest) values value vi =
    KernelVersion_loop rest values (decimal64_from value ds) vi.
Proof.
  intros Hds. revert value. induction Hds as [|b ds Hb _ IH]; intros value; [done|].
  cbn [app KernelVersion_loop]. rewrite decide_True by exact Hb.
  cbn zeta. rewrite IH. done.
Qed.

Lemma KernelVersion_loop_other (b : ascii) (rest : bytes) (values : list Z)
    (value vi : Z) :
  ¬ digit b →
  KernelVersion_loop (b :: rest) values value vi =
    if decide (len (<[Z.to_nat vi := value]> values) ≤ vi + 1)
    then <[Z.to_nat vi := value]> values
    else KernelVersion_loop rest (<[Z.to_nat vi := value]> values) 0 (vi + 1).
Proof.
  intros Hb. cbn [KernelVersion_loop]. by rewrite decide_False by exact Hb.
Qed.

Lemma KernelVersion_loop_end (ds : bytes) (values : list Z) (value vi : Z) :
  Forall digit ds → KernelVersion_loop ds values value vi = values.
Proof.
  intros Hds. rewrite <- (app_nil_r ds), KernelVersion_loop_digits by done. done.
Qed.

Lemma decimal_from_ge (v : Z) (ds : bytes) :
  Forall digit ds → 0 ≤ v → v ≤ decimal_from v ds.
Proof.
  intros Hds. revert v. induction Hds as [|b ds [Hlo Hhi] _ IH]; intros v Hv; [done|].
  unfold decimal_from. cbn [foldl]. fold (decimal_from (v * 10 + (int8 b - 48)) ds).
  etrans; [|apply IH]; lia.
Qed.

Lemma decimal64_from_exact (v : Z) (ds : bytes) :
  Forall digit ds → 0 ≤ v → decimal_from v ds < 2 ^ 63 →
  decimal64_from v ds = decimal_from v ds.
Proof.
  intros Hds. revert v. induction Hds as [|b ds Hb Hds IH]; intros v Hv Hlt; [done|].
  unfold decimal64_from, decimal_from in *. cbn [foldl] in *.
  fold (decimal_from (v * 10 + (int8 b - 48)) ds) in Hlt.
  destruct Hb as [Hlo Hhi].
  pose proof (decimal_from_ge (v * 10 + (int8 b - 48)) ds Hds) as Hge.
  rewrite (wrap_int_small (v * 10)) by lia.
  rewrite wrap_int_small by lia.
  apply IH; [lia | done].
Qed.

Lemma decimal_from_app (v : Z) (ds ds' : bytes) :
  decimal_from v (ds ++ ds') = decimal_from (decimal_from v ds) ds'.
Proof. unfold decimal_from. by rewrite foldl_app. Qed.

Lemma KernelVersion_two_fields_aux (d1 d2 rest : bytes) (c1 c2 : ascii) :
  Forall digit d1 → ¬ digit c1 → Forall digit d2 → ¬ digit c2 →
  KernelVersion (mkUtsname (d1 ++ c1 :: d2 ++ c2 :: rest), None)
    = (decimal64_from 0 d1, decimal64_from 0 d2) ∧
  (decimal_from 0 d1 < 2 ^ 63 → decimal64_from 0 d1 = decimal_from 0 d1) ∧
  (decimal_from 0 d2 < 2 ^ 63 → decimal64_from 0 d2 = decimal_from 0 d2).
Proof.
  intros Hd1 Hc1 Hd2 Hc2. split_and!.
  - unfold KernelVersion. cbn [snd fst Release].
    rewrite KernelVersion_loop_digits by done.
    rewrite KernelVersion_loop_other by done.
    rewrite decide_False by (unfold len; rewrite length_insert; simpl; lia).
    rewrite KernelVersion_loop_digits by done.
    rewrite KernelVersion_loop_other by done.
    rewrite decide_True by (unfold len; rewrite !length_insert; simpl; lia). done.
  - intros Hlt. by apply decimal64_from_exact.
  - intros Hlt. by apply decimal64_from_exact.
Qed.

(** X3. A release that starts with a run of digits, a byte that is no digit,
    a second run of digits and a second byte that is no digit gives the
    numbers the two runs write (in Go's wrapping [int]; the numbers
    themselves when they are below 2^63), whatever follows: the loop breaks
    at the second byte that is no digit. *)
Theorem KernelVersion_two_fields (d1 d2 rest : bytes) (c1 c2 : ascii) :
  Forall digit d1 → ¬ digit c1 → Forall digit d2 → ¬ digit c2 →
  KernelVersion (mkUtsname (d1 ++ c1 :: d2 ++ c2 :: rest), None)
    = (decimal64_from 0 d1, decimal64_from 0 d2) ∧
  (decimal_from 0 d1 < 2 ^ 63 → decimal64_from 0 d1 = decimal_from 0 d1) ∧
  (decimal_from 0 d2 < 2 ^ 63 → decimal64_from 0 d2 = decimal_from 0 d2) ∧
  (∀ rest', KernelVersion (mkUtsname (d1 ++ c1 :: d2 ++ c2 :: rest'), None)
            = KernelVersion (mkUtsname (d1 ++ c1 :: d2 ++ c2 :: rest), None)).
Proof.
  intros Hd1 Hc1 Hd2 Hc2.
  destruct (KernelVersion_two_fields_aux d1 d2 rest c1 c2) as (Hrun & H1 & H2);
    [done..|].
  split_and!; [done | done | done |].
  intros rest'.
  destruct (KernelVersion_two_fields_aux d1 d2 rest' c1 c2) as (Hrun' & _);
    [done..|].
  by rewrite Hrun, Hrun'.
Qed.



Lemma lit_String (c : ascii) (s : string) : lit (String c s) = c :: lit s.
Proof. reflexivity. Qed.

Lemma lit_app (s t : string) : lit (s +:+ t) = lit s ++ lit t.
Proof.
  induction s as [|c s IH]; [done|].
  rewrite string_app_cons, !lit_String, IH. done.
Qed.

Lemma pretty_N_char_digit (d : N) :
  (d < 10)%N →
  digit (pretty_N_char d) ∧ int8 (pretty_N_char d) - 48 = Z.of_N d.
Proof.
  intros Hd.
  assert (d = 0 ∨ d = 1 ∨ d = 2 ∨ d = 3 ∨ d = 4 ∨ d = 5 ∨ d = 6 ∨ d = 7
          ∨ d = 8 ∨ d = 9)%N as Hcases by lia.
  unfold digit.
  repeat (destruct Hcases as [->|Hcases]; [by vm_compute|]).
  subst d. by vm_compute.
Qed.

(** The digits [pretty_N_go] puts before [s] write [x]. *)
Lemma pretty_N_go_decimal (x : N) (s : string) :
  ∃ ds, lit (pretty_N_go x s) = ds ++ lit s ∧ Forall digit ds ∧
        ∀ v, decimal_from v ds = v * 10 ^ len ds + Z.of_N x.
Proof.
  revert s. induction (N.lt_wf_0 x) as [x _ IH]; intros s.
  destruct (decide (x = 0)%N) as [->|Hx].
  - exists []. rewrite pretty_N_go_0. split_and!; [done | done |].
    intros v. unfold decimal_from, len. simpl. lia.
  - rewrite pretty_N_go_step by lia.
    destruct (IH (x `div` 10)%N (N.div_lt x 10 ltac:(lia) eq_refl)
                (String (pretty_N_char (x `mod` 10)) s))
      as (ds & Hlit & Hds & Hval).
    destruct (pretty_N_char_digit (x `mod` 10)%N) as [Hdig Hchar].
    { apply N.mod_lt. lia. }
    exists (ds ++ [pretty_N_char (x `mod` 10)]). split_and!.
    + rewrite Hlit, lit_String, <- app_assoc. done.
    + apply Forall_app. split; [done|]. by apply Forall_singleton.
    + intros v. rewrite decimal_from_app, Hval.
      unfold decimal_from. cbn [foldl]. rewrite Hchar.
      rewrite len_app, len_cons. change (len []) with 0.
      rewrite Z.pow_add_r by (pose proof (len_nonneg ds); lia).
      pose proof (N.div_mod x 10 ltac:(lia)) as Hdm.
      apply (f_equal Z.of_N) in Hdm. rewrite N2Z.inj_add, N2Z.inj_mul in Hdm.
      change (Z.of_N 10) with 10 in Hdm. change (10 ^ (1 + 0)) with 10. lia.
Qed.

Lemma pretty_N_decimal (x : N) :
  Forall digit (lit (pretty x)) ∧ decimal_from 0 (lit (pretty x)) = Z.of_N x.
Proof.
  unfold pretty, pretty_N. destruct (decide (x = 0)%N) as [->|Hx].
  - split; [|by vm_compute]. apply Forall_singleton. by vm_compute.
  - destruct (pretty_N_go_decimal x "") as (ds & Hlit & Hds & Hval).
    change (lit "") with (@nil ascii) in Hlit. rewrite app_nil_r in Hlit.
    rewrite Hlit. split; [done|]. rewrite Hval. lia.
Qed.

(** X5. Reading back what was written: for a major and a minor version below
    2^63 written in decimal, with a dot between them and any byte that is no
    digit after the minor one, [KernelVersion] gives the two numbers,
    whatever follows. *)
Theorem KernelVersion_pretty (major minor : N) (c : ascii) (rest : bytes) :
  (major < 2 ^ 63)%N → (minor < 2 ^ 63)%N → ¬ digit c →
  KernelVersion
    (mkUtsname (lit (pretty major +:+ "." +:+ pretty minor) ++ c :: rest), None)
  = (Z.of_N major, Z.of_N minor).
Proof.
  intros Hmajor Hminor Hc.
  destruct (pretty_N_decimal major) as [Hd1 Hv1].
  destruct (pretty_N_decimal minor) as [Hd2 Hv2].
  rewrite !lit_app, <- !app_assoc. change (lit ".") with ["."%char].
  cbn [app].
  destruct (KernelVersion_two_fields_aux (lit (pretty major)) (lit (pretty minor))
              rest "."%char c) as [-> [H1 H2]];
    [done | unfold digit; change (int8 "."%char) with 46; lia | done | done |].
  rewrite H1, H2, Hv1, Hv2 by (rewrite ?Hv1, ?Hv2; lia). done.
Qed.

(** ** More on the extraction *)

(** X6. What [method] and [url] return never holds a space; a method that is
    not empty is followed by a space at the start of the buffer, and a URL
    that is not empty stands right behind it, between that space and the
    next.  The method is empty exactly when the buffer has no space or
    starts with one. *)
Theorem method_url_prefix (Buf m u : bytes) :
  method Buf = Some m → url Buf = Some u →
  (SP ∉ m) ∧ (SP ∉ u) ∧
  (m ≠ [] → (m ++ [SP]) `prefix_of` Buf) ∧
  (u ≠ [] → (m ++ SP :: u ++ [SP]) `prefix_of` Buf) ∧
  (m = [] ↔ SP ∉ Buf ∨ head Buf = Some SP).
Proof.
  intros Hm Hu. destruct (decide (SP ∈ Buf)) as [Hin|Hnin].
  - apply list_elem_of_split_l in Hin as (l1 & l2 & -> & Hl1).
    rewrite method_first_space in Hm by done. injection Hm as <-.
    assert ((SP ∉ u) ∧ (u ≠ [] → (l1 ++ SP :: u ++ [SP]) `prefix_of` l1 ++ SP :: l2))
      as [Hu1 Hu2].
    { destruct (decide (SP ∈ l2)) as [Hin2|Hnin2].
      - apply list_elem_of_split_l in Hin2 as (u' & r & -> & Hu').
        rewrite url_two_spaces in Hu by done. injection Hu as <-.
        split; [done|]. intros _. exists r.
        repeat (rewrite <- app_assoc; simpl). done.
      - rewrite url_one_space in Hu by done. injection Hu as <-.
        split; [apply not_elem_of_nil | done]. }
    split_and!; [done | done | | done |].
    + intros _. exists l2. rewrite <- app_assoc. done.
    + split.
      * intros ->. right. done.
      * intros [Hno|Hhead].
        -- destruct Hno. apply elem_of_app. right. apply list_elem_of_here.
        -- destruct l1 as [|x l1]; [done|]. simpl in Hhead.
           injection Hhead as ->. destruct Hl1. apply list_elem_of_here.
  - rewrite method_no_space in Hm by done. rewrite url_no_space in Hu by done.
    injection Hm as <-. injection Hu as <-.
    split_and!; [apply not_elem_of_nil | apply not_elem_of_nil | done | done |].
    split; [by left | done].
Qed.

(** X7. [cstr] returns the longest prefix without a zero byte: a prefix of
    its argument that holds no zero byte and is followed by one unless it is
    the whole argument; applying [cstr] again changes nothing. *)
Theorem cstr_longest_prefix (chars : bytes) :
  ∃ name,
    cstr chars = Some name ∧
    name `prefix_of` chars ∧
    (NUL ∉ name) ∧
    (NUL ∉ chars → name = chars) ∧
    (NUL ∈ chars → chars !! length name = Some NUL) ∧
    cstr name = Some name.
Proof.
  destruct (decide (NUL ∈ chars)) as [Hin|Hnin].
  - apply list_elem_of_split_l in Hin as (m & r & -> & Hm).
    exists m. split_and!.
    + by apply cstr_first_NUL.
    + by exists (NUL :: r).
    + done.
    + intros Hno. destruct Hno. apply elem_of_app. right. apply list_elem_of_here.
    + intros _. by rewrite list_lookup_middle.
    + by apply cstr_no_NUL.
  - exists chars. split_and!; [by apply cstr_no_NUL | done | done | done | done |].
    by apply cstr_no_NUL.
Qed.

(** ** More on the resolver *)

Section resolver_more.
Context {lib : GoLib} {layout : Layout}.

(** X8. [commNameOfDeadPid] makes one lookup in the map of dead pids and
    leaves the cache alone.  It gives the empty string when the pid has no
    entry or an entry of another size than 16 bytes, and otherwise the bytes
    of the snapshot before its first zero byte; the name never holds a zero
    byte and never has more than 16 bytes. *)
Theorem commNameOfDeadPid_name (w : World) (pid : N) (s : State) :
  ∃ name,
    commNameOfDeadPid w pid s = Some (name, logged s [IoDeadPidsLookup pid]) ∧
    (DeadPids w !! pid = None → name = []) ∧
    (∀ v, DeadPids w !! pid = Some v → length v ≠ 16%nat → name = []) ∧
    (∀ v, DeadPids w !! pid = Some v → length v = 16%nat → cstr v = Some name) ∧
    (NUL ∉ name) ∧
    (length name ≤ 16)%nat.
Proof.
  exists (dead_name w pid). split; [apply commNameOfDeadPid_run|].
  unfold dead_name. destruct (DeadPids w !! pid) as [v|] eqn:Hv.
  - destruct (decide (length v = 16%nat)) as [Hlen|Hlen].
    + destruct (cstr_longest_prefix v) as (name & Hname & Hpre & Hnul & _).
      rewrite Hname. simpl.
      split_and!; [done | by intros ? [= <-] ? | by intros ? [= <-] _ | done |].
      apply prefix_length in Hpre. lia.
    + split_and!; [done | done | by intros ? [= <-] ? | apply not_elem_of_nil |].
      simpl. lia.
  - split_and!; [done | done | done | apply not_elem_of_nil | simpl; lia].
Qed.

(** X9. [commName] leaves the cache alone and starts with one [os.Stat] of
    the [comm] file of the pid.  When the file does not exist it makes one
    lookup in the map of dead pids and no [os.ReadFile]; otherwise it makes
    one [os.ReadFile], followed by a lookup in the map of dead pids exactly
    when the read failed. *)
Theorem commName_calls (w : World) (pid : N) (s : State) :
  ∃ name s',
    commName w pid s = Some (name, s') ∧
    activePids s' = activePids s ∧
    (os_IsNotExist (os_Stat w (procPath pid)) = true →
       io_log s' = io_log s ++ [IoStat (procPath pid); IoDeadPidsLookup pid]) ∧
    (os_IsNotExist (os_Stat w (procPath pid)) = false →
     (os_ReadFile w (procPath pid)).2 = None →
       io_log s' = io_log s ++ [IoStat (procPath pid); IoReadFile (procPath pid)]) ∧
    (os_IsNotExist (os_Stat w (procPath pid)) = false →
     (os_ReadFile w (procPath pid)).2 ≠ None →
       io_log s' = io_log s ++ [IoStat (procPath pid); IoReadFile (procPath pid);
                                IoDeadPidsLookup pid]).
Proof.
  eexists _, _. split; [apply commName_run|]. unfold logged, commName_io.
  cbn [activePids io_log]. split_and!; [done | | |].
  - intros ->. done.
  - intros -> ->. done.
  - intros -> Herr. destruct (os_ReadFile w (procPath pid)).2; done.
Qed.

(** X10. When the [comm] file is there and reading it fails, [commName]
    returns what was read of the file with [strings.TrimSpace] applied: the
    map of dead pids is consulted, and its answer is not used, whatever the
    map holds for the pid. *)
Theorem commName_read_failure_ignores_dead_name
    (w : World) (pid : N) (s : State) (data : bytes) (e : error) :
  os_IsNotExist (os_Stat w (procPath pid)) = false →
  os_ReadFile w (procPath pid) = (data, Some e) →
  commName w pid s =
    Some (strings_TrimSpace data,
          logged s [IoStat (procPath pid); IoReadFile (procPath pid);
                    IoDeadPidsLookup pid]) ∧
  ∀ dead,
    commName (mkWorld (os_Stat w) (os_ReadFile w) dead (findNamespace w)) pid s =
    commName w pid s.
Proof.
  intros Hstat Hread. split.
  - rewrite commName_run. unfold commName_value, commName_io.
    rewrite Hstat, Hread. done.
  - intros dead. rewrite !commName_run. unfold commName_value, commName_io.
    cbn [os_Stat os_ReadFile]. rewrite Hstat, Hread. done.
Qed.

Lemma lru_find_remove_ne (k pid : N) (c : list (N * bytes)) :
  k ≠ pid → lru_find k (lru_remove pid c) = lru_find k c.
Proof.
  intros Hne. unfold lru_remove. induction c as [|[k' v] c IH]; [done|].
  rewrite filter_cons. cbn [fst lru_find].
  destruct (decide (k' ≠ pid)) as [Hk'|Hk'].
  - cbn [lru_find]. by rewrite IH.
  - assert (k' = pid) as -> by (by destruct (decide (k' = pid))).
    rewrite decide_False by congruence. done.
Qed.

Lemma lru_find_snoc_ne (k k' : N) (v : bytes) (c : list (N * bytes)) :
  k ≠ k' → lru_find k (c ++ [(k', v)]) = lru_find k c.
Proof.
  intros Hne. induction c as [|[k0 v0] c IH]; cbn [app lru_find].
  - by rewrite decide_False by congruence.
  - by rewrite IH.
Qed.

(** X11. A name stays cached until its entry is evicted: in a cache within
    its capacity, a resolve of any pid, in any world, leaves the name cached
    for a pid as it is, unless the resolved pid is new, the cache is full and
    that other pid is at the end of the order of use. *)
Theorem serviceName_keeps_cached
    (w : World) (pid k : N) (name : bytes) (s : State) :
  (length (activePids s) ≤ 64)%nat →
  lru_find k (activePids s) = Some name →
  ¬ ((pid ∉ lru_Keys (activePids s)) ∧ length (activePids s) = 64%nat
     ∧ last (lru_Keys (activePids s)) = Some k) →
  ∃ got s',
    serviceName w pid s = Some (got, s') ∧
    lru_find k (activePids s') = Some name.
Proof.
  intros Hbound Hk Hkeep. rewrite serviceName_run.
  destruct (lru_find pid (activePids s)) as [cached|] eqn:Hfind.
  - eexists _, _. split; [done|]. cbn [activePids lru_find].
    destruct (decide (pid = k)) as [->|Hne]; [congruence|].
    by rewrite lru_find_remove_ne.
  - apply lru_find_None in Hfind as Hnin.
    assert (k ≠ pid) as Hne by (intros ->; congruence).
    eexists _, _. split; [done|]. cbn [activePids].
    unfold lru_Add. rewrite Hfind. cbn zeta. unfold activePids_size.
    case_decide as Hfull; cbn [snd].
    + destruct (exists_last (l := activePids s)) as (c0 & [k' v'] & Hc).
      { intros Hnil. rewrite Hnil in Hk. done. }
      rewrite Hc in Hk, Hkeep, Hnin, Hbound, Hfull |- *.
      rewrite app_comm_cons, removelast_last. cbn [lru_find].
      rewrite decide_False by congruence.
      destruct (decide (k = k')) as [->|Hne'].
      * destruct Hkeep. split_and!.
        -- done.
        -- simpl in Hfull. lia.
        -- unfold lru_Keys. rewrite fmap_app. simpl. by rewrite last_snoc.
      * by rewrite lru_find_snoc_ne in Hk.
    + cbn [lru_find]. by rewrite decide_False by congruence.
Qed.

End resolver_more.

(** ** More on the decoder and the probes *)

Section decoder_more.
Context {lib : GoLib} {layout : Layout}.

Lemma binary_Read_app (raw extra : bytes) (event : BPFHTTPInfo) :
  (dataSize ≤ length raw)%nat →
  binary_Read (raw ++ extra) event = binary_Read raw event.
Proof.
  intros Hle. unfold binary_Read, io_ReadFull.
  rewrite decide_True by (rewrite length_app; lia).
  rewrite decide_True by done.
  by rewrite take_app_le by done.
Qed.

Lemma toRequestTrace_run (p : Tracer) (w : World) (raw : bytes) (s : State) :
  (dataSize ≤ length raw)%nat →
  ∃ event m u,
    binary_Read raw zero_BPFHTTPInfo = (event, None) ∧
    method (Buf event) = Some m ∧
    url (Buf event) = Some u ∧
    toRequestTrace p w raw s =
      (comm ← (if SystemWide (Cfg p) then serviceName w (Pid event) else mret []);
       mret (mkHTTPInfo event m u comm (hostInfo event).2 (hostInfo event).1, None)) s.
Proof.
  intros Hle.
  destruct (binary_Read_enough raw zero_BPFHTTPInfo Hle) as (event & Hread & _).
  destruct (method_total (Buf event)) as [m Hm].
  destruct (url_total (Buf event)) as [u Hu].
  exists event, m, u. split_and!; [done | done | done |].
  unfold toRequestTrace. rewrite Hread.
  destruct (hostInfo event) as [source target].
  run_M. unfold lift. rewrite Hu, Hm. done.
Qed.

(** X12. Bytes after the record are ignored: a sample that holds a whole
    record decodes as it does with anything appended, and as its first
    [dataSize] bytes do. *)
Theorem toRequestTrace_ignores_trailing
    (p : Tracer) (w : World) (raw extra : bytes) (s : State) :
  (dataSize ≤ length raw)%nat →
  toRequestTrace p w (raw ++ extra) s = toRequestTrace p w raw s ∧
  toRequestTrace p w (take dataSize raw) s = toRequestTrace p w raw s.
Proof.
  intros Hle.
  assert (∀ a b, (dataSize ≤ length a)%nat →
            toRequestTrace p w (a ++ b) s = toRequestTrace p w a s) as Happ.
  { intros a b Ha. unfold toRequestTrace. by rewrite binary_Read_app. }
  split; [by apply Happ|].
  rewrite <- (take_drop dataSize raw) at 2.
  rewrite Happ; [done|]. rewrite length_take. lia.
Qed.

(** X13. Only the process name depends on the mode, the world and the cache.
    On a sample that holds a whole record, the raw event, the method, the
    URL, the host and the peer are the same for every tracer, world and
    state; in system-wide mode the process name and the state afterwards are
    those of [serviceName] on the pid of the record, and outside it the name
    is empty and the state is left as it was. *)
Theorem toRequestTrace_comm_only (p : Tracer) (w : World) (raw : bytes) (s : State) :
  (dataSize ≤ length raw)%nat →
  ∃ result s',
    toRequestTrace p w raw s = Some ((result, None), s') ∧
    (SystemWide (Cfg p) = true →
       serviceName w (Pid (Event result)) s = Some (Comm result, s')) ∧
    (SystemWide (Cfg p) = false → Comm result = [] ∧ s' = s) ∧
    ∀ p' w' s0, ∃ result' s0',
      toRequestTrace p' w' raw s0 = Some ((result', None), s0') ∧
      Event result' = Event result ∧
      Method result' = Method result ∧
      URL result' = URL result ∧
      Host result' = Host result ∧
      Peer result' = Peer result.
Proof.
  intros Hle.
  destruct (toRequestTrace_run p w raw s Hle) as (event & m & u & Hread & Hm & Hu & Hrun).
  assert (∃ result s',
    toRequestTrace p w raw s = Some ((result, None), s') ∧
    Event result = event ∧ Method result = m ∧ URL result = u ∧
    Host result = (hostInfo event).2 ∧ Peer result = (hostInfo event).1 ∧
    (SystemWide (Cfg p) = true →
       serviceName w (Pid event) s = Some (Comm result, s')) ∧
    (SystemWide (Cfg p) = false → Comm result = [] ∧ s' = s))
    as (result & s' & Hres & He & Hme & Hur & Hho & Hpe & Hsw & Hst).
  { rewrite Hrun. run_M. destruct (SystemWide (Cfg p)).
    - destruct (serviceName_total w (Pid event) s) as (name & s' & Hname).
      rewrite Hname. eexists _, _. split; [done|]. split_and!; done.
    - eexists _, _. split; [done|]. split_and!; done. }
  exists result, s'. split_and!; [done | by rewrite He | done |].
  intros p' w' s0.
  destruct (toRequestTrace_run p' w' raw s0 Hle)
    as (event' & m' & u' & Hread' & Hm' & Hu' & Hrun').
  assert (event' = event) as -> by congruence.
  assert (m' = m) as -> by congruence.
  assert (u' = u) as -> by congruence.
  rewrite Hrun'. run_M. destruct (SystemWide (Cfg p')).
  - destruct (serviceName_total w' (Pid event) s0) as (name & s0' & Hname).
    rewrite Hname. eexists _, _. split; [done|]. by rewrite He, Hme, Hur, Hho, Hpe.
  - eexists _, _. split; [done|]. by rewrite He, Hme, Hur, Hho, Hpe.
Qed.

End decoder_more.

(** X14. Every probe the table declares is required and is bound on one side
    only: an entry has no exit program or no entry program.  The table has
    six entries outside system-wide mode and eight in it, and the system-wide
    table of a tracer holds every entry of its table outside that mode. *)
Theorem KProbes_all_required (p : Tracer) :
  map_Forall (λ _ fp, Required fp = true ∧ (Start fp = None ∨ End_ fp = None))
    (KProbes p) ∧
  size (KProbes p) = (if SystemWide (Cfg p) then 8 else 6)%nat ∧
  KProbes (mkTracer (mkTracerConfig false (BpfDebug (Cfg p))) (objects p))
    ⊆ KProbes (mkTracer (mkTracerConfig true (BpfDebug (Cfg p))) (objects p)).
Proof.
  split_and!.
  - unfold KProbes. cbn [list_to_map foldr fst snd].
    destruct (SystemWide (Cfg p));
      repeat (apply map_Forall_insert_2; [split; [done | auto] |]);
      apply map_Forall_empty.
  - unfold KProbes. cbn [list_to_map foldr fst snd].
    destruct (SystemWide (Cfg p));
      repeat (rewrite map_size_insert_None; [| by vm_compute]);
      by rewrite map_size_empty.
  - unfold KProbes. cbn [SystemWide Cfg objects].
    etrans; [|apply insert_subseteq; by vm_compute].
    apply insert_subseteq. by vm_compute.
Qed.

(** ** The further theorems at concrete inputs *)

Section examples_more.
#[local] Existing Instance example_lib.
#[local] Existing Instance example_layout.

(** X3 at the release [6.8.0-45-generic] in its array. *)
Lemma KernelVersion_two_fields_witness :
  KernelVersion uname_6_8 = (6, 8) ∧
  ∀ rest',
    KernelVersion (mkUtsname (lit "6" ++ "."%char :: lit "8" ++ "."%char :: rest'), None)
    = KernelVersion uname_6_8.
Proof.
  destruct (KernelVersion_two_fields (lit "6") (lit "8")
              (drop 4 (release_array "6.8.0-45-generic")) "."%char "."%char)
    as (Hrun & _ & _ & Hrest).
  - repeat constructor; by vm_compute.
  - unfold digit. change (int8 "."%char) with 46. lia.
  - repeat constructor; by vm_compute.
  - unfold digit. change (int8 "."%char) with 46. lia.
  - split; [exact Hrun | exact Hrest].
Defined.


(** X5 at version 6.8 with the rest of a release behind it, in its 65-byte
    array. *)
Lemma KernelVersion_pretty_witness :
  Utsname_ok uname_6_8.1 ∧ KernelVersion uname_6_8 = (6, 8).
Proof.
  split; [reflexivity|].
  refine (KernelVersion_pretty 6 8 "."%char (lit "0-45-generic" ++ replicate 49 NUL)
            _ _ _).
  - by vm_compute.
  - by vm_compute.
  - unfold digit. change (int8 "."%char) with 46. lia.
Defined.

(** X6 at the request line of the examples. *)
Lemma method_url_prefix_witness :
  (SP ∉ lit "GET") ∧ (SP ∉ lit "/foo") ∧
  (lit "GET" ≠ [] → (lit "GET" ++ [SP]) `prefix_of` lit "GET /foo HTTP/1.1") ∧
  (lit "/foo" ≠ [] →
     (lit "GET" ++ SP :: lit "/foo" ++ [SP]) `prefix_of` lit "GET /foo HTTP/1.1") ∧
  (lit "GET" = [] ↔
     SP ∉ lit "GET /foo HTTP/1.1" ∨ head (lit "GET /foo HTTP/1.1") = Some SP).
Proof.
  apply (method_url_prefix (lit "GET /foo HTTP/1.1") (lit "GET") (lit "/foo"));
    by vm_compute.
Defined.

(** X7 at the snapshot of the examples. *)
Lemma cstr_longest_prefix_witness :
  ∃ name,
    cstr snapshot_sh = Some name ∧
    name `prefix_of` snapshot_sh ∧
    (NUL ∉ name) ∧
    (NUL ∉ snapshot_sh → name = snapshot_sh) ∧
    (NUL ∈ snapshot_sh → snapshot_sh !! length name = Some NUL) ∧
    cstr name = Some name.
Proof. exact (cstr_longest_prefix snapshot_sh). Defined.

(** X10 at pid 9, whose file vanishes between the check and the read while
    the map of dead pids holds its name: the name is lost. *)
Lemma commName_read_failure_ignores_dead_name_witness :
  commName world_read_fails 9 init_state =
    Some (strings_TrimSpace [],
          logged init_state [IoStat (procPath 9); IoReadFile (procPath 9);
                             IoDeadPidsLookup 9]) ∧
  ∀ dead,
    commName (mkWorld (os_Stat world_read_fails) (os_ReadFile world_read_fails)
                dead (findNamespace world_read_fails)) 9 init_state =
    commName world_read_fails 9 init_state.
Proof.
  apply (commName_read_failure_ignores_dead_name world_read_fails 9 init_state []
           fs_ErrNotExist); reflexivity.
Defined.

Example commName_read_failure_sh :
  DeadPids world_read_fails !! 9%N = Some snapshot_sh ∧
  cstr snapshot_sh = Some (lit "sh ") ∧
  ∃ s', commName world_read_fails 9 init_state = Some ([], s').
Proof. split_and!; [by vm_compute | by vm_compute |]. eexists. by vm_compute. Qed.

(** X11 at a cache that holds pid 7: resolving pid 8 leaves its name. *)
Lemma serviceName_keeps_cached_witness :
  ∃ got s',
    serviceName world_empty 8 (mkState [(7%N, lit "nginx")] []) = Some (got, s') ∧
    lru_find 7%N (activePids s') = Some (lit "nginx").
Proof.
  apply (serviceName_keeps_cached world_empty 8 7 (lit "nginx")
           (mkState [(7%N, lit "nginx")] [])).
  - simpl. lia.
  - by vm_compute.
  - intros (_ & Hlen & _). simpl in Hlen. lia.
Defined.

(** X12 at the sample of the examples with three bytes appended. *)
Lemma toRequestTrace_ignores_trailing_witness :
  toRequestTrace tracer_single world_empty (sample_get_foo ++ lit "abc") init_state
    = toRequestTrace tracer_single world_empty sample_get_foo init_state ∧
  toRequestTrace tracer_single world_empty (take dataSize sample_get_foo) init_state
    = toRequestTrace tracer_single world_empty sample_get_foo init_state.
Proof.
  apply (toRequestTrace_ignores_trailing tracer_single world_empty sample_get_foo
           (lit "abc") init_state).
  vm_compute. lia.
Defined.

(** X13 at the sample of the examples in system-wide mode. *)
Lemma toRequestTrace_comm_only_witness :
  ∃ result s',
    toRequestTrace tracer_system_wide world_nginx_alive sample_get_foo init_state
      = Some ((result, None), s') ∧
    (SystemWide (Cfg tracer_system_wide) = true →
       serviceName world_nginx_alive (Pid (Event result)) init_state
         = Some (Comm result, s')) ∧
    (SystemWide (Cfg tracer_system_wide) = false → Comm result = [] ∧ s' = init_state) ∧
    ∀ p' w' s0, ∃ result' s0',
      toRequestTrace p' w' sample_get_foo s0 = Some ((result', None), s0') ∧
      Event result' = Event result ∧
      Method result' = Method result ∧
      URL result' = URL result ∧
      Host result' = Host result ∧
      Peer result' = Peer result.
Proof.
  apply (toRequestTrace_comm_only tracer_system_wide world_nginx_alive sample_get_foo
           init_state).
  vm_compute. lia.
Defined.

End examples_more.
